(** * hass-mqtt-weather-sensor: the fetch / retry / publish pipeline of index.js

    A shallow embedding of [src/index.js].  The script polls the Weather.com
    PWS API, and republishes every metric of the first observation it obtains
    as a Home Assistant discovery pair (config topic, state topic).

    What the script observes from outside is kept abstract and passed in:
    - the JavaScript built-ins and npm libraries it calls ([String] on a
      number, [String.prototype.trim], [parseInt], [parse-duration]) are the
      fields of the class [Host];
    - the upstream HTTP service ([axios.get]) is the class [Network], a
      state-passing oracle over an abstract [world].

    Everything the script does is recorded as a list of [event]s in program
    order: console output, broker calls, HTTP calls, timers and
    [process.exit], and the calls of [publishToMqtt].  An exception is a
    result like any other: [String(sensor.value)] on line 206 can throw, and
    the [catch] of line 112 takes what [publishToMqtt] throws as it takes a
    rejected request.

    The trace of the process is that of the top level, of the handlers of
    the broker events, and of the cycle that the connect handler starts,
    run to its end.  The cycles that the timer starts later, and a broker
    event that arrives while a cycle is waiting, are outside the model:
    nothing is stated about them. *)

From Stdlib Require Import List String Ascii ZArith QArith Bool Lia DecimalString.
From Equations Require Import Equations.
Import ListNotations.
Open Scope string_scope.
Open Scope Z_scope.

Set Implicit Arguments.
Set Warnings "-register-all".

(** ** The host: JavaScript built-ins and libraries used by the script *)

(** The result of [parseInt(s, 10)]: [NaN] or an integer.  (A digit string too
    long for a finite double is outside the model.) *)
Inductive jsint : Type :=
| NaN
| Int (z : Z).

Class Host : Type := {
  (** a JSON number as [JSON.parse] delivers it *)
  number : Type;
  (** [String(n)] for a number [n] *)
  number_ToString : number -> string;
  (** truthiness of a number: neither zero nor NaN *)
  number_truthy : number -> bool;
  (** [String.prototype.trim] *)
  trim : string -> string;
  (** [parseInt(s, 10)] *)
  parseInt : string -> jsint;
  (** [parseDuration(s)] of the parse-duration package, in milliseconds;
      [None] is its [null] (or NaN) result *)
  parseDuration : string -> option Q
}.

(** ** JavaScript values *)

(** A value as it is found inside a parsed JSON response, plus [undefined]
    for an absent property. *)
Inductive jsval `{Host} : Type :=
| Undefined
| Null
| Bool (b : bool)
| Num (n : number)
| Str (s : string)
| Arr (items : list jsval)
| Obj (props : list (string * jsval)).

(** An own property of an object literal, by name; the first binding wins. *)
Fixpoint lookup {A : Type} (k : string) (props : list (string * A)) : option A :=
  match props with
  | [] => None
  | (k', v) :: rest => if String.eqb k k' then Some v else lookup k rest
  end.

(** [v[k]] (or [v.k]) for a [v] that is neither [null] nor [undefined], and a
    property name [k] that no prototype defines: every name the script reads
    ([obsTimeUtc], [solarRadiation], [winddir], [humidity], [metric] and the
    keys of [metricMap]) is of that kind, so only an object can answer. *)
Definition get `{Host} (v : jsval) (k : string) : jsval :=
  match v with
  | Obj props => match lookup k props with Some x => x | None => Undefined end
  | _ => Undefined
  end.

(** [v === undefined || v === null] *)
Definition nullish `{Host} (v : jsval) : bool :=
  match v with
  | Undefined | Null => true
  | _ => false
  end.

(** ToBoolean *)
Definition truthy `{Host} (v : jsval) : bool :=
  match v with
  | Undefined | Null => false
  | Bool b => b
  | Num n => number_truthy n
  | Str s => negb (String.eqb s "")
  | Arr _ | Obj _ => true
  end.

(** [typeof v === 'object'] *)
Definition typeof_object `{Host} (v : jsval) : bool :=
  match v with
  | Null | Arr _ | Obj _ => true
  | _ => false
  end.

(** The conversions of the items of an array, in order: [None] as soon as
    one of them throws. *)
Fixpoint all_converted (items : list (option string)) : option (list string) :=
  match items with
  | [] => Some []
  | Some s :: rest =>
      match all_converted rest with
      | Some l => Some (s :: l)
      | None => None
      end
  | None :: _ => None
  end.

(** [String(v)]; [None] when the conversion throws a TypeError.

    An object is converted by its [toString] method, then by [valueOf].  A
    parsed object inherits both from [Object.prototype] and gives
    ["[object Object]"], unless it has a property of its own called
    [toString]: a JSON value is never callable, so that method is skipped,
    the inherited [valueOf] returns the object itself, and the conversion
    throws.  An array is joined with commas, a [null] or [undefined] item
    giving the empty string and every other item being converted in turn. *)
Fixpoint ToString `{Host} (v : jsval) : option string :=
  match v with
  | Undefined => Some "undefined"
  | Null => Some "null"
  | Bool true => Some "true"
  | Bool false => Some "false"
  | Num n => Some (number_ToString n)
  | Str s => Some s
  | Arr items =>
      option_map (String.concat ",")
        (all_converted
           (map (fun x => match x with
                          | Undefined | Null => Some ""
                          | _ => ToString x
                          end) items))
  | Obj props =>
      match lookup "toString" props with
      | Some _ => None
      | None => Some "[object Object]"
      end
  end.

(** ** JSON.stringify on the payloads the script builds *)

(** The config payload is made of strings, one array and nested objects. *)
Inductive json : Type :=
| JStr (s : string)
| JArr (items : list json)
| JObj (props : list (string * json)).

Definition dquote : ascii := "034"%char.
Definition backslash : ascii := "092"%char.

Definition hex_digit (n : nat) : ascii :=
  ascii_of_nat (if Nat.ltb n 10 then 48 + n else 87 + n).

(** QuoteJSONString, one byte of the UTF-8 text at a time: the quote, the
    backslash and the control characters are escaped, every other byte is
    copied. *)
Definition escape (c : ascii) : string :=
  let n := nat_of_ascii c in
  if Ascii.eqb c dquote then String backslash (String dquote "")
  else if Ascii.eqb c backslash then String backslash (String backslash "")
  else if Nat.eqb n 8 then String backslash "b"
  else if Nat.eqb n 9 then String backslash "t"
  else if Nat.eqb n 10 then String backslash "n"
  else if Nat.eqb n 12 then String backslash "f"
  else if Nat.eqb n 13 then String backslash "r"
  else if Nat.ltb n 32 then
    String backslash
      ("u00" ++ String (hex_digit (Nat.div n 16)) (String (hex_digit (Nat.modulo n 16)) ""))
  else String c "".

Fixpoint escape_all (s : string) : string :=
  match s with
  | EmptyString => ""
  | String c rest => escape c ++ escape_all rest
  end.

Definition quote (s : string) : string :=
  String dquote (escape_all s ++ String dquote "").

Fixpoint JSON_stringify (j : json) : string :=
  match j with
  | JStr s => quote s
  | JArr items => "[" ++ String.concat "," (map JSON_stringify items) ++ "]"
  | JObj props =>
      "{" ++ String.concat ","
               (map (fun kv => quote (fst kv) ++ ":" ++ JSON_stringify (snd kv)) props)
          ++ "}"
  end.

(** ** What the script does: events *)

(** An exception caught by the [try] of [fetchAndPublish]. *)
Inductive exn : Type :=
| AxiosError (message : string)   (* [axios.get] rejected; [err.message] *)
| TypeError.                      (* a property read on [null] or [undefined],
                                     or a value that [String] cannot convert *)

(** The texts written to the console, by the place that writes them. *)
Inductive text : Type :=
| MissingEnv                      (* line 22 *)
| InvalidSensorName               (* line 32 *)
| Connected                       (* line 49 *)
| InvalidExecEvery                (* line 53 *)
| ConnectionClosed                (* line 66 *)
| WentOffline                     (* line 71 *)
| MqttError (message : option string)   (* lines 77, 79 *)
| ErrorFetching (stationId : string) (attempt : Z) (e : exn)   (* line 113 *)
| ExhaustedRetries (stationId : string)                        (* line 118 *)
| FailedAllStations               (* line 120 *)
| Published (key : string).       (* line 207 *)

(** The options object handed to [mqtt.connect]. *)
Record mqtt_options : Type := {
  host : string;
  port : jsint;
  protocol : string;
  clientId : string;
  username : option string;
  password : option string
}.

(** The body of an HTTP response, as far as the script looks into it:
    [response.data] may be missing, and so may [response.data.observations],
    which is otherwise an array. *)
Record body `{Host} : Type := {
  observations : option (list jsval)
}.

Record response `{Host} : Type := {
  data : option body
}.

(** How the promise of [axios.get] settles. *)
Inductive settled `{Host} : Type :=
| Rejected (message : string)
| Fulfilled (r : response).

(** Besides the calls that leave the process, a trace records the two calls
    between functions of the script that the statements speak of:
    [fetchWeather(stationId)] with how it settled, and [publishToMqtt(obs)]
    at the moment line 109 makes it. *)
Inductive event `{Host} : Type :=
| console_log (t : text)
| console_error (t : text)
| mqtt_connect (o : mqtt_options)
| client_publish (topic payload : string) (retain : bool)
| fetchWeather_call (stationId : string) (result : settled)
| publishToMqtt_call (obs : jsval)
| setTimeout (ms : Z)
| setInterval (ms : Q)
| process_exit (code : Z).

(** The upstream service: [axios.get(url, { headers })], awaited. *)
Class Network `{Host} : Type := {
  world : Type;
  axios_get : string -> list (string * string) -> world -> settled * world
}.

(** ** The configuration, lines 7 to 46 *)

Module Env.
(** [process.env], after dotenv has run: a variable is a string or is not
    set. *)
Record t : Type := {
  SENSOR_NAME : option string;
  API_KEY : option string;
  STATION_ID : option string;
  RETRIES : option string;
  MQTT_HOST : option string;
  MQTT_PORT : option string;
  MQTT_CLIENT_ID : option string;
  MQTT_TLS : option string;
  MQTT_USERNAME : option string;
  MQTT_PASSWORD : option string;
  EXEC_EVERY : option string
}.
End Env.

(** The module-level constants once the start-up checks have passed. *)
Record config : Type := {
  SENSOR_NAME : string;
  API_KEY : string;
  stationIds : list string;
  retries : jsint;
  EXEC_EVERY : string;
  mqttOptions : mqtt_options
}.

(** ** publishToMqtt, lines 125 to 209 *)

Record sensor `{Host} : Type := {
  key : string;
  name : string;
  device_class : option string;
  unit : option string;
  value : jsval
}.

Record meta : Type := {
  meta_name : string;
  meta_device_class : option string;
  meta_unit : option string
}.

(** [Object.entries(metricMap)]: the entries in insertion order. *)
Definition metricMap : list (string * meta) :=
  [ ("temp", {| meta_name := "Temperature"; meta_device_class := Some "temperature"; meta_unit := Some "°C" |});
    ("heatIndex", {| meta_name := "Heat Index"; meta_device_class := Some "temperature"; meta_unit := Some "°C" |});
    ("dewpt", {| meta_name := "Dew Point"; meta_device_class := Some "temperature"; meta_unit := Some "°C" |});
    ("windChill", {| meta_name := "Wind Chill"; meta_device_class := Some "temperature"; meta_unit := Some "°C" |});
    ("windSpeed", {| meta_name := "Wind Speed"; meta_device_class := Some "wind_speed"; meta_unit := Some "km/h" |});
    ("windGust", {| meta_name := "Wind Gust"; meta_device_class := Some "wind_speed"; meta_unit := Some "km/h" |});
    ("pressure", {| meta_name := "Pressure"; meta_device_class := Some "pressure"; meta_unit := Some "hPa" |});
    ("precipRate", {| meta_name := "Precipitation Rate"; meta_device_class := None; meta_unit := Some "mm/h" |});
    ("precipTotal", {| meta_name := "Precipitation Total"; meta_device_class := None; meta_unit := Some "mm" |});
    ("elev", {| meta_name := "Elevation"; meta_device_class := None; meta_unit := Some "m" |}) ].

Section Publish.
Context `{Host}.
Variable sensorName : string.     (* SENSOR_NAME *)

Definition base : string := "homeassistant/sensor/" ++ sensorName.

Definition device : json :=
  JObj [ ("identifiers", JArr [JStr sensorName]);
         ("name", JStr ("Weather Station " ++ sensorName));
         ("manufacturer", JStr "Weather.com") ].

(** The array literal of lines 134 to 164: always these four entries,
    whatever the observation holds.  ([state_transform] is never called.) *)
Definition fixed_sensors (obs : jsval) : list sensor :=
  [ {| key := "obsTimeUtc"; name := "Observation Time";
       device_class := None; unit := None; value := get obs "obsTimeUtc" |};
    {| key := "solarRadiation"; name := "Solar Radiation";
       device_class := None; unit := Some "W/m²"; value := get obs "solarRadiation" |};
    {| key := "winddir"; name := "Wind Direction";
       device_class := None; unit := Some "°"; value := get obs "winddir" |};
    {| key := "humidity"; name := "Humidity";
       device_class := Some "humidity"; unit := Some "%"; value := get obs "humidity" |} ].

(** One turn of the loop of lines 180 to 190. *)
Definition metric_sensor (metric : jsval) (entry : string * meta) : list sensor :=
  let (k, m) := entry in
  if negb (nullish (get metric k)) then
    [ {| key := k; name := meta_name m; device_class := meta_device_class m;
         unit := meta_unit m; value := get metric k |} ]
  else [].

(** Lines 167 to 191: what is pushed after the four fixed entries. *)
Definition metric_sensors (obs : jsval) : list sensor :=
  let metric := get obs "metric" in
  if truthy metric && typeof_object metric then
    flat_map (metric_sensor metric) metricMap
  else [].

(** The array [sensors] when the loop of line 193 starts. *)
Definition sensors (obs : jsval) : list sensor :=
  fixed_sensors obs ++ metric_sensors obs.

Definition configTopic (s : sensor) : string := base ++ "/" ++ key s ++ "/config".
Definition stateTopic (s : sensor) : string := base ++ "/" ++ key s ++ "/state".

(** [if (x) ...] for a property that is a string or [undefined]. *)
Definition present (x : option string) : option string :=
  match x with
  | Some s => if String.eqb s "" then None else Some s
  | None => None
  end.

Definition optional (k : string) (x : option string) : list (string * json) :=
  match present x with
  | Some s => [(k, JStr s)]
  | None => []
  end.

(** Lines 197 to 204. *)
Definition configPayload (s : sensor) : json :=
  JObj ([ ("name", JStr ("Weather " ++ sensorName ++ " " ++ name s));
          ("state_topic", JStr (stateTopic s));
          ("unique_id", JStr (sensorName ++ "_" ++ key s));
          ("device", device) ]
        ++ optional "device_class" (device_class s)
        ++ optional "unit_of_measurement" (unit s)).

(** One turn of the loop of lines 193 to 208: what it does, and the
    exception it ends with, if any.  Line 205 has sent the config message
    when line 206 evaluates [String(sensor.value)]; when that throws, the
    state message is not sent and line 207 is not reached. *)
Definition publish_sensor (s : sensor) : list event * option exn :=
  if nullish (value s) then ([], None)
  else
    match ToString (value s) with
    | Some state =>
        ([ client_publish (configTopic s) (JSON_stringify (configPayload s)) true;
           client_publish (stateTopic s) state true;
           console_log (Published (key s)) ], None)
    | None =>
        ([ client_publish (configTopic s) (JSON_stringify (configPayload s)) true ],
         Some TypeError)
    end.

(** The loop of lines 193 to 208: it stops at the first turn that throws,
    after what the turns before it and that turn itself have done. *)
Fixpoint publish_loop (l : list sensor) : list event * option exn :=
  match l with
  | [] => ([], None)
  | s :: rest =>
      match publish_sensor s with
      | (evs, Some e) => (evs, Some e)
      | (evs, None) =>
          let (evs', thrown) := publish_loop rest in
          ((evs ++ evs')%list, thrown)
      end
  end.

(** [publishToMqtt(obs)]: what it does, and the exception it throws, if any.
    Reading [obs.obsTimeUtc] on line 140 throws when [obs] is [null] or
    [undefined], before anything is published. *)
Definition publishToMqtt (obs : jsval) : list event * option exn :=
  if nullish obs then ([], Some TypeError)
  else publish_loop (sensors obs).
End Publish.

(** ** fetchWeather and fetchAndPublish, lines 84 to 123 *)

(** [attempt < retries], [attempt] a counter and [retries] the result of
    [parseInt]: false against [NaN]. *)
Definition lt_int (a : Z) (r : jsint) : bool :=
  match r with
  | NaN => false
  | Int z => a <? z
  end.

(** How many times [while (attempt < retries)] turns when nothing returns
    from inside it, [attempt] starting at [a]. *)
Definition turns_left (a : Z) (r : jsint) : nat :=
  match r with
  | NaN => 0%nat
  | Int z => Z.to_nat (z - a)
  end.

(** The retry budget of a station: the turns left when [attempt] is 0. *)
Definition budget (r : jsint) : nat := turns_left 0 r.

(** How a call of [fetchAndPublish] ends. *)
Inductive completion : Type :=
| Returned (success : bool)
| Exited (code : Z).

(** The process after a handler has run. *)
Inductive status : Type :=
| Running
| Stopped (code : Z).

(** The argument of the broker's [error] event, as far as line 76 to 80 read
    it: [err.message] and [err.errors?.[0]?.message]. *)
Record mqtt_err : Type := {
  message : option string;
  first_message : option string
}.

(** The broker client's events the script subscribes to. *)
Inductive lifecycle : Type :=
| connect
| close
| offline
| error (err : mqtt_err).

(** [!interval || interval < 1] once [interval] is a number. *)
Definition below_one (ms : Q) : bool :=
  Qeq_bool ms 0 || negb (Qle_bool 1 ms).

(** How one turn of the [while] loop leaves the [try] of line 105. *)
Inductive turn : Type :=
| returns             (* [return true], line 110 *)
| passes              (* the test of line 107 fails *)
| catches (e : exn).  (* the [catch] of line 112 *)

Section Cycle.
Context `{Network}.
Variable cfg : config.

Definition url (stationId : string) : string :=
  "https://api.weather.com/v2/pws/observations/current?apiKey=" ++ API_KEY cfg
    ++ "&stationId=" ++ stationId ++ "&numericPrecision=decimal&format=json&units=m".

Definition headers : list (string * string) :=
  [ ("User-Agent", "Mozilla/5.0 (Macintosh; Intel Mac OS X 10.15; rv:131.0) Gecko/20100101 Firefox/131.0");
    ("Accept", "application/json, text/plain, */*");
    ("Accept-Language", "en-GB,en;q=0.5");
    ("Accept-Encoding", "gzip, deflate, br, zstd");
    ("Referer", "https://www.wunderground.com");
    ("Origin", "https://www.wunderground.com");
    ("DNT", "1");
    ("Sec-Fetch-Dest", "empty");
    ("Sec-Fetch-Site", "cross-site");
    ("Sec-Fetch-Mode", "cors") ].

Definition fetchWeather (stationId : string) (w : world) : settled * world :=
  axios_get (url stationId) headers w.

(** Lines 107 and 108: the [obs] of a response that passes the test
    [response.data && response.data.observations &&
     response.data.observations.length > 0]. *)
Definition first_observation (r : response) : option jsval :=
  match data r with
  | None => None
  | Some d =>
      match observations d with
      | None => None
      | Some items =>
          if (0 <? Z.of_nat (List.length items))%Z then Some (hd Undefined items) else None
      end
  end.

(** What one settled call leads to inside the [try] of lines 105 to 111:
    what is done there, and how the [try] is left.  An exception thrown by
    [publishToMqtt] is caught by the same [catch] as a rejected call, after
    what [publishToMqtt] had done before it threw. *)
Definition handle (result : settled) : list event * turn :=
  match result with
  | Rejected message => ([], catches (AxiosError message))
  | Fulfilled r =>
      match first_observation r with
      | None => ([], passes)
      | Some obs =>
          match publishToMqtt (SENSOR_NAME cfg) obs with
          | (evs, None) => (publishToMqtt_call obs :: evs, returns)
          | (evs, Some e) => (publishToMqtt_call obs :: evs, catches e)
          end
      end
  end.

(** One turn of the [while] loop up to line 114: the events, whether
    [return true] was reached, and the world after the call. *)
Definition attempt_once (stationId : string) (attempt : Z) (w : world)
  : list event * bool * world :=
  let (result, w') := fetchWeather stationId w in
  match handle result with
  | (evs, returns) => (fetchWeather_call stationId result :: evs, true, w')
  | (evs, passes) => (fetchWeather_call stationId result :: evs, false, w')
  | (evs, catches e) =>
      ((fetchWeather_call stationId result :: evs
          ++ [console_error (ErrorFetching stationId (attempt + 1) e)])%list, false, w')
  end.

(** The [while] loop of lines 104 to 117, entered with the given value of
    [attempt]: the events, whether [return true] was reached, and the world
    afterwards.  A turn that reaches line 110 ends the loop; any other turn
    is followed by the two seconds of line 116. *)
Equations? retry (stationId : string) (attempt : Z) (w : world)
  : list event * bool * world
  by wf (turns_left attempt (retries cfg)) lt :=
retry stationId attempt w with sumbool_of_bool (lt_int attempt (retries cfg)) := {
  | left _ =>
      match attempt_once stationId attempt w with
      | (evs, true, w1) => (evs, true, w1)
      | (evs, false, w1) =>
          let '(evs', returned, w2) := retry stationId (attempt + 1) w1 in
          ((evs ++ setTimeout 2000 :: evs')%list, returned, w2)
      end
  | right _ => ([], false, w) }.
Proof.
  unfold lt_int, turns_left in *. destruct (retries cfg); [discriminate|].
  apply Z.ltb_lt in e. lia.
Qed.

(** The [for ... of] loop of lines 102 to 119, over the stations still to
    try. *)
Fixpoint stations_loop (ids : list string) (w : world) : list event * bool * world :=
  match ids with
  | [] => ([], false, w)
  | stationId :: rest =>
      match retry stationId 0 w with
      | (evs, true, w1) => (evs, true, w1)
      | (evs, false, w1) =>
          let '(evs', returned, w2) := stations_loop rest w1 in
          ((evs ++ console_log (ExhaustedRetries stationId) :: evs')%list, returned, w2)
      end
  end.

(** [fetchAndPublish()], run to its end.  Line 122 is never reached:
    [process.exit] does not return. *)
Definition fetchAndPublish (w : world) : list event * completion * world :=
  match stations_loop (stationIds cfg) w with
  | (evs, true, w1) => (evs, Returned true, w1)
  | (evs, false, w1) =>
      ((evs ++ [console_error FailedAllStations; process_exit 7])%list, Exited 7, w1)
  end.

(** [fetchAndPublish(); setInterval(fetchAndPublish, interval)]: the call
    runs up to its first [await], which is the first [fetchWeather]; the
    timer is armed then, and the rest of the cycle follows.  A cycle without
    any call has reached [process.exit] before returning to the handler. *)
Fixpoint armed_after_first_call (timer : event) (evs : list event) : list event :=
  match evs with
  | [] => []
  | fetchWeather_call stationId result :: rest =>
      fetchWeather_call stationId result :: timer :: rest
  | e :: rest => e :: armed_after_first_call timer rest
  end.

Definition status_of (c : completion) : status :=
  match c with
  | Returned _ => Running
  | Exited code => Stopped code
  end.

(** The [connect] handler, lines 48 to 63, with the cycle it starts, run to
    its end.  The cycles that the timer starts later are further runs of
    [fetchAndPublish]; they are not part of this trace, also when the
    interval is shorter than the first cycle. *)
Definition on_connect (w : world) : list event * status * world :=
  if negb (String.eqb (EXEC_EVERY cfg) "") then
    match parseDuration (EXEC_EVERY cfg) with
    | None =>
        ([console_log Connected; console_error InvalidExecEvery; process_exit 3],
         Stopped 3, w)
    | Some interval =>
        if below_one interval then
          ([console_log Connected; console_error InvalidExecEvery; process_exit 3],
           Stopped 3, w)
        else
          let '(evs, c, w1) := fetchAndPublish w in
          (console_log Connected :: armed_after_first_call (setInterval interval) evs,
           status_of c, w1)
    end
  else
    let '(evs, c, w1) := fetchAndPublish w in
    match c with
    | Returned true => (console_log Connected :: evs, Running, w1)
    | Returned false => ((console_log Connected :: evs ++ [process_exit 7])%list, Stopped 7, w1)
    | Exited code => (console_log Connected :: evs, Stopped code, w1)
    end.

(** Lines 75 to 80: the text of the [error] handler. *)
Definition error_text (err : mqtt_err) : option string :=
  match message err with
  | Some m => if String.eqb m "" then first_message err else Some m
  | None => first_message err
  end.

(** One broker event, handled. *)
Definition on (l : lifecycle) (w : world) : list event * status * world :=
  match l with
  | connect => on_connect w
  | close => ([console_error ConnectionClosed; process_exit 5], Stopped 5, w)
  | offline => ([console_error WentOffline; process_exit 5], Stopped 5, w)
  | error err => ([console_error (MqttError (error_text err)); process_exit 6], Stopped 6, w)
  end.

(** The broker events in the order they arrive, until the process exits,
    each one handled after the cycle of an earlier [connect] has come to
    its end.  (An event that arrives while a cycle awaits a call or the two
    seconds of line 116 is handled then and there by the script; such runs
    are not among these traces.) *)
Fixpoint serve (ls : list lifecycle) (w : world) : list event * status * world :=
  match ls with
  | [] => ([], Running, w)
  | l :: rest =>
      match on l w with
      | (evs, Stopped code, w1) => (evs, Stopped code, w1)
      | (evs, Running, w1) =>
          let '(evs', st, w2) := serve rest w1 in
          ((evs ++ evs')%list, st, w2)
      end
  end.
End Cycle.

(** ** Start-up, lines 7 to 46 *)

(** [!X] for an environment variable: not set, or set to the empty string. *)
Definition missing (x : option string) : bool :=
  match x with
  | None => true
  | Some s => String.eqb s ""
  end.

(** The character class [[+#\u0000]]. *)
Definition reserved (c : ascii) : bool :=
  Ascii.eqb c "+"%char || Ascii.eqb c "#"%char || Ascii.eqb c "000"%char.

Fixpoint test_reserved (s : string) : bool :=
  match s with
  | EmptyString => false
  | String c rest => reserved c || test_reserved rest
  end.

(** Lines 26 to 29. *)
Definition isValidMqttTopic (str : option string) : bool :=
  match str with
  | None => false
  | Some s => (0 <? Z.of_nat (String.length s)) && negb (test_reserved s)
  end.

(** [s.split(',')] *)
Fixpoint split_commas (s : string) : list string :=
  match s with
  | EmptyString => [EmptyString]
  | String c rest =>
      if Ascii.eqb c ","%char then EmptyString :: split_commas rest
      else match split_commas rest with
           | first :: others => String c first :: others
           | [] => [String c EmptyString]
           end
  end.

Definition or_default (x : option string) (d : string) : string :=
  match x with
  | Some s => s
  | None => d
  end.

(** What the top level of the script leaves behind. *)
Inductive started : Type :=
| Refused (code : Z)
| Ready (cfg : config).

Section Startup.
Context `{Host}.

(** Line 38 to 45.  The default of [RETRIES] is the number 5, which
    [parseInt] reads as the string 5; [MQTT_TLS] defaults to [false], which
    is not the string true. *)
Definition options_of (env : Env.t) : mqtt_options :=
  {| host := or_default (Env.MQTT_HOST env) "";
     port := parseInt (or_default (Env.MQTT_PORT env) "");
     protocol := match Env.MQTT_TLS env with
                 | Some s => if String.eqb s "true" then "mqtts" else "mqtt"
                 | None => "mqtt"
                 end;
     clientId := or_default (Env.MQTT_CLIENT_ID env) "mqtt-weather-sensor";
     username := Env.MQTT_USERNAME env;
     password := Env.MQTT_PASSWORD env |}.

Definition config_of (env : Env.t) : config :=
  {| SENSOR_NAME := or_default (Env.SENSOR_NAME env) "";
     API_KEY := or_default (Env.API_KEY env) "";
     stationIds := map trim (split_commas (or_default (Env.STATION_ID env) ""));
     retries := parseInt (or_default (Env.RETRIES env) "5");
     EXEC_EVERY := or_default (Env.EXEC_EVERY env) "1m";
     mqttOptions := options_of env |}.

(** The top level of the script, down to [mqtt.connect] on line 46. *)
Definition startup (env : Env.t) : list event * started :=
  if missing (Env.SENSOR_NAME env) || missing (Env.API_KEY env)
     || missing (Env.STATION_ID env) || missing (Env.MQTT_HOST env)
     || missing (Env.MQTT_PORT env)
  then ([console_error MissingEnv; process_exit 2], Refused 2)
  else if negb (isValidMqttTopic (Env.SENSOR_NAME env))
  then ([console_error InvalidSensorName; process_exit 4], Refused 4)
  else ([mqtt_connect (options_of env)], Ready (config_of env)).
End Startup.

(** The whole process: the top level, then the broker events as they come. *)
Definition main `{Network} (env : Env.t) (ls : list lifecycle) (w : world)
  : list event * status * world :=
  match startup env with
  | (evs, Refused code) => (evs, Stopped code, w)
  | (evs, Ready cfg) =>
      let '(evs', st, w') := serve cfg ls w in
      ((evs ++ evs')%list, st, w')
  end.

(** ** Vocabulary of the statements *)

Section Vocabulary.
Context `{Host}.

(** The calls of [fetchWeather] in a trace, each with how it settled. *)
Definition calls (evs : list event) : list (string * settled) :=
  flat_map (fun e => match e with
                     | fetchWeather_call stationId result => [(stationId, result)]
                     | _ => []
                     end) evs.

(** The broker messages of a trace: topic, payload, retain flag. *)
Definition publishes (evs : list event) : list (string * string * bool) :=
  flat_map (fun e => match e with
                     | client_publish topic payload retain => [(topic, payload, retain)]
                     | _ => []
                     end) evs.

(** The timers armed in a trace. *)
Definition timers (evs : list event) : list Q :=
  flat_map (fun e => match e with
                     | setInterval ms => [ms]
                     | _ => []
                     end) evs.

(** The observations handed to [publishToMqtt] in a trace. *)
Definition entered (evs : list event) : list jsval :=
  flat_map (fun e => match e with
                     | publishToMqtt_call obs => [obs]
                     | _ => []
                     end) evs.

(** The keys of the four fixed entries and of [metricMap], in source
    order. *)
Definition fixed_keys : list string :=
  ["obsTimeUtc"; "solarRadiation"; "winddir"; "humidity"].

Definition metric_keys : list string := map fst metricMap.

Definition schema : list string := (fixed_keys ++ metric_keys)%list.

(** The value the script reads for a key of the schema: a fixed key is read
    on the observation, a metric key on [obs.metric] when that is an object
    and is absent otherwise. *)
Definition reading (obs : jsval) (k : string) : jsval :=
  if existsb (String.eqb k) fixed_keys then get obs k
  else
    let metric := get obs "metric" in
    if truthy metric && typeof_object metric then get metric k else Undefined.

(** The entries of [sensors] that the loop of line 193 does not skip. *)
Definition published (obs : jsval) : list sensor :=
  filter (fun s => negb (nullish (value s))) (sensors obs).

(** The schema as one table: key, texts, and whether the entry is part of
    the array literal (and so built whatever its value). *)
Definition table : list (string * meta * bool) :=
  [ ("obsTimeUtc", {| meta_name := "Observation Time"; meta_device_class := None;
                      meta_unit := None |}, true);
    ("solarRadiation", {| meta_name := "Solar Radiation"; meta_device_class := None;
                          meta_unit := Some "W/m²" |}, true);
    ("winddir", {| meta_name := "Wind Direction"; meta_device_class := None;
                   meta_unit := Some "°" |}, true);
    ("humidity", {| meta_name := "Humidity"; meta_device_class := Some "humidity";
                    meta_unit := Some "%" |}, true) ]
  ++ map (fun e => (e, false)) metricMap.

Definition row_key (r : string * meta * bool) : string := fst (fst r).

Definition entry (k : string) (m : meta) (v : jsval) : sensor :=
  {| key := k; name := meta_name m; device_class := meta_device_class m;
     unit := meta_unit m; value := v |}.

(** What a row of the table contributes to [sensors]. *)
Definition row (obs : jsval) (r : string * meta * bool) : list sensor :=
  let '(k, m, always) := r in
  if always || negb (nullish (reading obs k)) then [entry k m (reading obs k)] else [].

(** A key of the schema has an entry in [sensors]. *)
Definition constructed (obs : jsval) (k : string) : bool :=
  existsb (String.eqb k) fixed_keys || negb (nullish (reading obs k)).

(** The topics of a key, written out. *)
Definition config_topic (sensorName k : string) : string :=
  "homeassistant/sensor/" ++ sensorName ++ "/" ++ k ++ "/config".

Definition state_topic (sensorName k : string) : string :=
  "homeassistant/sensor/" ++ sensorName ++ "/" ++ k ++ "/state".

(** [String] converts the value. *)
Definition convertible (v : jsval) : bool :=
  match ToString v with
  | Some _ => true
  | None => false
  end.

(** The messages of one sensor: the config message, and after it the state
    message when [String] converts the value. *)
Definition messages (sensorName : string) (s : sensor) : list (string * string * bool) :=
  (config_topic sensorName (key s), JSON_stringify (configPayload sensorName s), true)
  :: match ToString (value s) with
     | Some state => [(state_topic sensorName (key s), state, true)]
     | None => []
     end.

(** The entries the publish loop gets to: up to and including the first
    one whose value [String] does not convert. *)
Fixpoint reached (l : list sensor) : list sensor :=
  match l with
  | [] => []
  | s :: rest => if convertible (value s) then s :: reached rest else [s]
  end.

(** An observation that is published to the end: it is neither [null] nor
    [undefined], and [String] converts every value there is to publish. *)
Definition publishable (obs : jsval) : bool :=
  negb (nullish obs) && forallb (fun s => convertible (value s)) (published obs).

(** Following the specification, section 4.1: a fetch returns an
    observation, the first of the list, unless the call fails or the
    response comes without an observation list or with an empty one. *)
Definition fetched (result : settled) : option jsval :=
  match result with
  | Rejected _ => None
  | Fulfilled r =>
      match data r with
      | Some d =>
          match observations d with
          | Some (obs :: _) => Some obs
          | _ => None
          end
      | None => None
      end
  end.

(** A call after which the cycle has an observation and has published it
    to the end. *)
Definition completes (result : settled) : bool :=
  match fetched result with
  | Some obs => publishable obs
  | None => false
  end.

Definition none_completes (cs : list (string * settled)) : Prop :=
  Forall (fun c => completes (snd c) = false) cs.


(** The properties of a JSON object. *)
Definition props_of (j : json) : list (string * json) :=
  match j with
  | JObj props => props
  | _ => []
  end.

Fixpoint last_char (s : string) : option ascii :=
  match s with
  | EmptyString => None
  | String c EmptyString => Some c
  | String _ rest => last_char rest
  end.
End Vocabulary.

Section CycleVocabulary.
Context `{Network}.
Variable cfg : config.

(** The stations in the order and number of calls of a cycle that no call
    ends. *)
Definition schedule (ids : list string) : list string :=
  flat_map (fun stationId => repeat stationId (budget (retries cfg))) ids.

(** A trace in which the stations [expected] were called, in that order,
    and no call fetched an observation that was published to the end. *)
Definition exhausted (expected : list string) (evs : list event) : Prop :=
  map fst (calls evs) = expected /\ none_completes (calls evs).

(** A trace that ends with the first call that completes: station [s] is
    called for the [k+1]-th time after the calls [prefix]; no earlier call
    completed; the call fetches the observation [obs], and the trace stops
    with [publishToMqtt(obs)] and what it did, which is to send the
    messages of every entry with a value. *)
Definition first_success (prefix : list string) (s : string) (k : nat)
           (evs : list event) : Prop :=
  exists earlier result obs done,
    evs = (earlier ++ fetchWeather_call s result :: publishToMqtt_call obs :: done)%list /\
    map fst (calls earlier) = (prefix ++ repeat s k)%list /\
    none_completes (calls earlier) /\
    fetched result = Some obs /\
    publishable obs = true /\
    publishToMqtt (SENSOR_NAME cfg) obs = (done, None) /\
    publishes done = flat_map (messages (SENSOR_NAME cfg)) (published obs) /\
    calls done = [].
End CycleVocabulary.

(** ** A host and a network to run the model on *)

Module Sample.
Definition is_space (c : ascii) : bool :=
  let n := nat_of_ascii c in
  Nat.eqb n 32 || (Nat.leb 9 n && Nat.leb n 13).

Fixpoint trim_start (s : string) : string :=
  match s with
  | String c rest => if is_space c then trim_start rest else s
  | EmptyString => EmptyString
  end.

Fixpoint trim_end (s : string) : string :=
  match s with
  | EmptyString => EmptyString
  | String c rest =>
      match trim_end rest with
      | EmptyString => if is_space c then EmptyString else String c EmptyString
      | rest' => String c rest'
      end
  end.

Definition digit (c : ascii) : option Z :=
  let n := nat_of_ascii c in
  if Nat.leb 48 n && Nat.leb n 57 then Some (Z.of_nat (n - 48)) else None.

(** The digits at the head of [s], read in base ten after [acc]; what
    follows them; and whether there was any digit. *)
Fixpoint digits (s : string) (acc : Z) (any : bool) : Z * string * bool :=
  match s with
  | EmptyString => (acc, EmptyString, any)
  | String c rest =>
      match digit c with
      | Some d => digits rest (10 * acc + d) true
      | None => (acc, s, any)
      end
  end.

(** [parseInt(s, 10)] on ASCII text: white space, a sign, digits. *)
Definition parse_int (s : string) : jsint :=
  let s := trim_start s in
  let (negative, s) :=
    match s with
    | String "-"%char rest => (true, rest)
    | String "+"%char rest => (false, rest)
    | _ => (false, s)
    end in
  match digits s 0 false with
  | (n, _, true) => Int (if negative then - n else n)
  | (_, _, false) => NaN
  end.

Definition unit_ms (u : string) : option Z :=
  if String.eqb u "ms" then Some 1
  else if String.eqb u "s" then Some 1000
  else if String.eqb u "m" then Some 60000
  else if String.eqb u "h" then Some 3600000
  else if String.eqb u "d" then Some 86400000
  else None.

Fixpoint letters (s : string) : string * string :=
  match s with
  | EmptyString => (EmptyString, EmptyString)
  | String c rest =>
      match digit c with
      | Some _ => (EmptyString, s)
      | None => let (u, tail) := letters rest in (String c u, tail)
      end
  end.

(** The formats the README gives for [EXEC_EVERY] (5s, 10m, 1h, 2m30s):
    groups of digits and a unit, added up; anything else is [null]. *)
Fixpoint duration (fuel : nat) (s : string) (acc : Z) : option Z :=
  match fuel with
  | O => None
  | S fuel' =>
      match digits s 0 false with
      | (n, rest, true) =>
          let (u, tail) := letters rest in
          match unit_ms u with
          | Some ms =>
              match tail with
              | EmptyString => Some (acc + n * ms)
              | _ => duration fuel' tail (acc + n * ms)
              end
          | None => None
          end
      | (_, _, false) => None
      end
  end.

Definition parse_duration (s : string) : option Q :=
  match duration (S (String.length s)) s 0 with
  | Some ms => Some (inject_Z ms)
  | None => None
  end.

(** Whole numbers for the readings. *)
Definition host : Host :=
  {| number := Z;
     number_ToString := fun z => NilZero.string_of_int (Z.to_int z);
     number_truthy := fun z => negb (z =? 0);
     trim := fun s => trim_end (trim_start s);
     parseInt := parse_int;
     parseDuration := parse_duration |}.
End Sample.

Module SampleNet.
#[local] Existing Instance Sample.host.

(** The upstream service as a script: the calls settle as listed, one
    after the other, and time out once the script is used up. *)
Definition scripted : Network :=
  {| world := list settled;
     axios_get := fun _ _ w =>
       match w with
       | result :: rest => (result, rest)
       | [] => (Rejected "timeout of 0ms exceeded", [])
       end |}.

Definition reply (obs : jsval) : settled :=
  Fulfilled {| data := Some {| observations := Some [obs] |} |}.

Definition refused : settled := Rejected "Request failed with status code 401".


Definition env : Env.t :=
  {| Env.SENSOR_NAME := Some "garden";
     Env.API_KEY := Some "k";
     Env.STATION_ID := Some "A, B";
     Env.RETRIES := Some "2";
     Env.MQTT_HOST := Some "broker";
     Env.MQTT_PORT := Some "1883";
     Env.MQTT_CLIENT_ID := None;
     Env.MQTT_TLS := None;
     Env.MQTT_USERNAME := None;
     Env.MQTT_PASSWORD := None;
     Env.EXEC_EVERY := None |}.

Definition with_name (name : option string) (e : Env.t) : Env.t :=
  {| Env.SENSOR_NAME := name;
     Env.API_KEY := Env.API_KEY e;
     Env.STATION_ID := Env.STATION_ID e;
     Env.RETRIES := Env.RETRIES e;
     Env.MQTT_HOST := Env.MQTT_HOST e;
     Env.MQTT_PORT := Env.MQTT_PORT e;
     Env.MQTT_CLIENT_ID := Env.MQTT_CLIENT_ID e;
     Env.MQTT_TLS := Env.MQTT_TLS e;
     Env.MQTT_USERNAME := Env.MQTT_USERNAME e;
     Env.MQTT_PASSWORD := Env.MQTT_PASSWORD e;
     Env.EXEC_EVERY := Env.EXEC_EVERY e |}.

Definition with_retries (r : option string) (e : Env.t) : Env.t :=
  {| Env.SENSOR_NAME := Env.SENSOR_NAME e;
     Env.API_KEY := Env.API_KEY e;
     Env.STATION_ID := Env.STATION_ID e;
     Env.RETRIES := r;
     Env.MQTT_HOST := Env.MQTT_HOST e;
     Env.MQTT_PORT := Env.MQTT_PORT e;
     Env.MQTT_CLIENT_ID := Env.MQTT_CLIENT_ID e;
     Env.MQTT_TLS := Env.MQTT_TLS e;
     Env.MQTT_USERNAME := Env.MQTT_USERNAME e;
     Env.MQTT_PASSWORD := Env.MQTT_PASSWORD e;
     Env.EXEC_EVERY := Env.EXEC_EVERY e |}.

Definition with_every (x : option string) (e : Env.t) : Env.t :=
  {| Env.SENSOR_NAME := Env.SENSOR_NAME e;
     Env.API_KEY := Env.API_KEY e;
     Env.STATION_ID := Env.STATION_ID e;
     Env.RETRIES := Env.RETRIES e;
     Env.MQTT_HOST := Env.MQTT_HOST e;
     Env.MQTT_PORT := Env.MQTT_PORT e;
     Env.MQTT_CLIENT_ID := Env.MQTT_CLIENT_ID e;
     Env.MQTT_TLS := Env.MQTT_TLS e;
     Env.MQTT_USERNAME := Env.MQTT_USERNAME e;
     Env.MQTT_PASSWORD := Env.MQTT_PASSWORD e;
     Env.EXEC_EVERY := x |}.

Definition without_api_key (e : Env.t) : Env.t :=
  {| Env.SENSOR_NAME := Env.SENSOR_NAME e;
     Env.API_KEY := None;
     Env.STATION_ID := Env.STATION_ID e;
     Env.RETRIES := Env.RETRIES e;
     Env.MQTT_HOST := Env.MQTT_HOST e;
     Env.MQTT_PORT := Env.MQTT_PORT e;
     Env.MQTT_CLIENT_ID := Env.MQTT_CLIENT_ID e;
     Env.MQTT_TLS := Env.MQTT_TLS e;
     Env.MQTT_USERNAME := Env.MQTT_USERNAME e;
     Env.MQTT_PASSWORD := Env.MQTT_PASSWORD e;
     Env.EXEC_EVERY := Env.EXEC_EVERY e |}.

Definition cfg : config := config_of env.

(** [{ humidity: 55, metric: { temp: 18 } }] *)
Definition humid : jsval :=
  Obj [("humidity", Num 55); ("metric", Obj [("temp", Num 18)])].

(** [{ humidity: null, winddir: 270 }] *)
Definition no_humidity : jsval :=
  Obj [("humidity", Null); ("winddir", Num 270)].

(** [{ metric: { pressure: null, temp: 18 } }] *)
Definition no_pressure : jsval :=
  Obj [("metric", Obj [("pressure", Null); ("temp", Num 18)])].

(** [{}] *)
Definition blank : jsval := Obj [].

(** [{ winddir: 270, humidity: { toString: 1 } }] *)
Definition odd_humidity : jsval :=
  Obj [("winddir", Num 270); ("humidity", Obj [("toString", Num 1)])].

Definition humidity_55 : sensor :=
  entry "humidity"
        {| meta_name := "Humidity"; meta_device_class := Some "humidity";
           meta_unit := Some "%" |} (Num 55).
End SampleNet.

(** ** Further vocabulary: waits, exits, the pieces of [STATION_ID] *)

Section TraceVocabulary.
Context `{Host}.

(** The delays awaited on line 116, in milliseconds. *)
Definition waits (evs : list event) : list Z :=
  flat_map (fun e => match e with
                     | setTimeout ms => [ms]
                     | _ => []
                     end) evs.

(** The codes of the calls of [process.exit]. *)
Definition exits (evs : list event) : list Z :=
  flat_map (fun e => match e with
                     | process_exit code => [code]
                     | _ => []
                     end) evs.

(** The pace of a loop: all of two seconds, one after each call that did
    not end the loop. *)
Definition paced (evs : list event) (returned : bool) : Prop :=
  Forall (fun ms => ms = 2000) (waits evs) /\
  List.length (calls evs)
  = (List.length (waits evs) + if returned then 1 else 0)%nat /\
  exits evs = [].

(** The station and attempt number of the lines written on line 113. *)
Definition fetch_errors (evs : list event) : list (string * Z) :=
  flat_map (fun e => match e with
                     | console_error (ErrorFetching stationId attempt _) =>
                         [(stationId, attempt)]
                     | _ => []
                     end) evs.

(** The topics of the broker messages of a trace. *)
Definition topics (evs : list event) : list string :=
  map (fun m => fst (fst m)) (publishes evs).

(** What the loop of lines 193 to 208 does: broker messages and the line
    of line 207. *)
Definition of_publisher (e : event) : Prop :=
  match e with
  | client_publish _ _ _ | console_log (Published _) => True
  | _ => False
  end.

(** What a turn of the [while] loop does after its call: the call of
    [publishToMqtt] with what the publisher does, and the line of
    line 113. *)
Definition of_turn (e : event) : Prop :=
  match e with
  | client_publish _ _ _ | console_log (Published _) | publishToMqtt_call _
  | console_error (ErrorFetching _ _ _) => True
  | _ => False
  end.

(** What a call leads the cycle to hand to [publishToMqtt], and to send. *)
Definition handed (c : string * settled) : list jsval :=
  match fetched (snd c) with
  | Some obs => [obs]
  | None => []
  end.

Definition sent (sensorName : string) (c : string * settled)
  : list (string * string * bool) :=
  match fetched (snd c) with
  | Some obs => publishes (fst (publishToMqtt sensorName obs))
  | None => []
  end.

(** A trace whose calls of [publishToMqtt] and whose messages are those its
    calls of [fetchWeather] lead to, in the order of these calls. *)
Definition by_calls (sensorName : string) (evs : list event) : Prop :=
  entered evs = flat_map handed (calls evs) /\
  publishes evs = flat_map (sent sensorName) (calls evs).
End TraceVocabulary.

(** The number of commas of a string. *)
Fixpoint commas (s : string) : nat :=
  match s with
  | EmptyString => 0
  | String c rest => ((if Ascii.eqb c ","%char then 1 else 0) + commas rest)%nat
  end.

(** What the handlers of [close], [offline] and [error] write, and the code
    they exit with (lines 65 to 82). *)
Definition fatal_text (l : lifecycle) : text :=
  match l with
  | connect => Connected
  | close => ConnectionClosed
  | offline => WentOffline
  | error err =>
      MqttError (match message err with
                 | Some m => if String.eqb m "" then first_message err else Some m
                 | None => first_message err
                 end)
  end.

Definition fatal_code (l : lifecycle) : Z :=
  match l with
  | connect => 0
  | close | offline => 5
  | error _ => 6
  end.

(** * Properties *)

(** ** Strings *)

Lemma append_assoc (a b c : string) : ((a ++ b) ++ c = a ++ (b ++ c))%string.
Proof. induction a as [|x a IH]; cbn; [reflexivity | now rewrite IH]. Qed.

Lemma append_inj_l (p a b : string) : (p ++ a = p ++ b)%string -> a = b.
Proof. induction p as [|x p IH]; cbn; [tauto | intros [= E]; auto]. Qed.

Lemma length_append (a b : string) :
  String.length (a ++ b) = (String.length a + String.length b)%nat.
Proof. induction a as [|x a IH]; cbn; [reflexivity | now rewrite IH]. Qed.

Lemma append_inj_r (s : string) : forall a b : string,
  (a ++ s = b ++ s)%string -> a = b.
Proof.
  induction a as [|x a IH]; intros [|y b] E; cbn in E.
  - reflexivity.
  - apply (f_equal String.length) in E. cbn in E. rewrite length_append in E. lia.
  - apply (f_equal String.length) in E. cbn in E. rewrite length_append in E. lia.
  - injection E as -> E. f_equal. now apply IH.
Qed.

Lemma last_char_append (a s : string) :
  s <> "" -> last_char (a ++ s) = last_char s.
Proof.
  intros Hs. induction a as [|x a IH]; [reflexivity|].
  cbn [append last_char]. rewrite IH.
  destruct (a ++ s)%string eqn:E; [|reflexivity].
  destruct a; cbn in E; [contradiction | discriminate].
Qed.

(** ** Traces *)

Section TraceFacts.
Context `{Host}.

Lemma calls_app (evs1 evs2 : list event) :
  calls (evs1 ++ evs2) = (calls evs1 ++ calls evs2)%list.
Proof. apply flat_map_app. Qed.

Lemma publishes_app (evs1 evs2 : list event) :
  publishes (evs1 ++ evs2) = (publishes evs1 ++ publishes evs2)%list.
Proof. apply flat_map_app. Qed.

Lemma timers_app (evs1 evs2 : list event) :
  timers (evs1 ++ evs2) = (timers evs1 ++ timers evs2)%list.
Proof. apply flat_map_app. Qed.

Lemma entered_app (evs1 evs2 : list event) :
  entered (evs1 ++ evs2) = (entered evs1 ++ entered evs2)%list.
Proof. apply flat_map_app. Qed.

Lemma waits_app (evs1 evs2 : list event) :
  waits (evs1 ++ evs2) = (waits evs1 ++ waits evs2)%list.
Proof. apply flat_map_app. Qed.

Lemma exits_app (evs1 evs2 : list event) :
  exits (evs1 ++ evs2) = (exits evs1 ++ exits evs2)%list.
Proof. apply flat_map_app. Qed.

Lemma fetch_errors_app (evs1 evs2 : list event) :
  fetch_errors (evs1 ++ evs2) = (fetch_errors evs1 ++ fetch_errors evs2)%list.
Proof. apply flat_map_app. Qed.

Lemma flat_map_nil {A B : Type} (f : A -> list B) (l : list A) :
  Forall (fun x => f x = []) l -> flat_map f l = [].
Proof.
  induction 1 as [|x l Hx _ IH]; [reflexivity|].
  cbn [flat_map]. now rewrite Hx, IH.
Qed.

Lemma flat_map_singletons {A : Type} (l : list A) : flat_map (fun x => [x]) l = l.
Proof. induction l as [|x l IH]; [reflexivity | cbn; now rewrite IH]. Qed.
End TraceFacts.

(** ** The publish loop *)

Section PublishLoop.
Context `{Host}.
Variable sensorName : string.

Lemma configTopic_eq (s : sensor) :
  configTopic sensorName s = config_topic sensorName (key s).
Proof. unfold configTopic, config_topic, base. now rewrite append_assoc. Qed.

Lemma stateTopic_eq (s : sensor) :
  stateTopic sensorName s = state_topic sensorName (key s).
Proof. unfold stateTopic, state_topic, base. now rewrite append_assoc. Qed.

Lemma publish_sensor_events (s : sensor) :
  Forall of_publisher (fst (publish_sensor sensorName s)).
Proof.
  unfold publish_sensor. destruct (nullish (value s)); [constructor|].
  destruct (ToString (value s)); cbn [fst]; repeat (constructor; [exact I|]); constructor.
Qed.

Lemma publish_loop_events (l : list sensor) :
  Forall of_publisher (fst (publish_loop sensorName l)).
Proof.
  induction l as [|s l IH]; [constructor|]. cbn [publish_loop].
  pose proof (publish_sensor_events s) as Hs.
  destruct (publish_sensor sensorName s) as [evs [e|]]; [exact Hs|].
  destruct (publish_loop sensorName l) as [evs' thrown]. cbn [fst] in *.
  apply Forall_app. now split.
Qed.

Lemma publishToMqtt_events (obs : jsval) :
  Forall of_publisher (fst (publishToMqtt sensorName obs)).
Proof.
  unfold publishToMqtt. destruct (nullish obs); [constructor | apply publish_loop_events].
Qed.

(** What the publisher does is neither a call of [fetchWeather] or of
    [publishToMqtt], nor a timer, a wait, an exit or an error line. *)
Lemma quiet_publisher (evs : list event) :
  Forall of_publisher evs ->
  calls evs = [] /\ timers evs = [] /\ entered evs = [] /\
  waits evs = [] /\ exits evs = [] /\ fetch_errors evs = [].
Proof.
  intros Hall.
  repeat split; apply flat_map_nil; (eapply Forall_impl; [|exact Hall]);
    intros [t| | | | | | | |] He; try destruct t; first [contradiction | reflexivity].
Qed.

Lemma publishToMqtt_quiet (obs : jsval) :
  let done := fst (publishToMqtt sensorName obs) in
  calls done = [] /\ timers done = [] /\ entered done = [] /\
  waits done = [] /\ exits done = [] /\ fetch_errors done = [].
Proof. apply quiet_publisher, publishToMqtt_events. Qed.

(** The loop throws at the first entry with a value that [String] does not
    convert. *)
Lemma publish_loop_thrown (l : list sensor) :
  snd (publish_loop sensorName l) =
  if forallb (fun s => convertible (value s))
             (filter (fun s => negb (nullish (value s))) l)
  then None else Some TypeError.
Proof.
  induction l as [|s l IH]; [reflexivity|].
  cbn [publish_loop filter]. unfold publish_sensor.
  destruct (nullish (value s)); cbn [negb].
  - destruct (publish_loop sensorName l) as [evs' thrown]. exact IH.
  - cbn [forallb].
    change (convertible (value s))
      with (match ToString (value s) with Some _ => true | None => false end).
    destruct (ToString (value s)); cbn [andb]; [|reflexivity].
    destruct (publish_loop sensorName l) as [evs' thrown]. exact IH.
Qed.

(** The messages of the loop: those of the entries with a value, up to and
    including the first one whose value [String] does not convert. *)
Lemma publishes_publish_loop (l : list sensor) :
  publishes (fst (publish_loop sensorName l))
  = flat_map (messages sensorName)
             (reached (filter (fun s => negb (nullish (value s))) l)).
Proof.
  induction l as [|s l IH]; [reflexivity|].
  cbn [publish_loop filter]. unfold publish_sensor.
  destruct (nullish (value s)); cbn [negb].
  - destruct (publish_loop sensorName l) as [evs' thrown]. exact IH.
  - cbn [reached].
    change (convertible (value s))
      with (match ToString (value s) with Some _ => true | None => false end).
    rewrite configTopic_eq, stateTopic_eq.
    destruct (ToString (value s)) as [state|] eqn:Es.
    + destruct (publish_loop sensorName l) as [evs' thrown]. cbn [fst] in *.
      cbn [flat_map]. rewrite publishes_app, IH. f_equal.
      unfold messages. now rewrite Es.
    + cbn [flat_map fst]. unfold messages. rewrite Es. reflexivity.
Qed.

Lemma reached_all (l : list sensor) :
  forallb (fun s => convertible (value s)) l = true -> reached l = l.
Proof.
  induction l as [|s l IH]; [reflexivity|].
  cbn [forallb reached]. intros E. apply andb_true_iff in E. destruct E as [-> E].
  now rewrite IH.
Qed.

Lemma reached_prefix (l : list sensor) : exists rest, l = (reached l ++ rest)%list.
Proof.
  induction l as [|x l [rest IH]]; [now exists []|].
  cbn [reached]. destruct (convertible (value x)).
  - exists rest. cbn [app]. now rewrite <- IH.
  - now exists l.
Qed.

Lemma reached_incl (l : list sensor) (s : sensor) : In s (reached l) -> In s l.
Proof.
  induction l as [|x l IH]; [tauto|].
  cbn [reached]. destruct (convertible (value x)); cbn [In]; tauto.
Qed.

(** [publishToMqtt] throws exactly for the observations that are not
    publishable, and then a TypeError. *)
Lemma publishToMqtt_thrown (obs : jsval) :
  snd (publishToMqtt sensorName obs) = if publishable obs then None else Some TypeError.
Proof.
  unfold publishToMqtt, publishable. destruct (nullish obs); [reflexivity|].
  cbn [negb andb]. apply publish_loop_thrown.
Qed.

Lemma publishToMqtt_publishes (obs : jsval) :
  publishes (fst (publishToMqtt sensorName obs))
  = if nullish obs then []
    else flat_map (messages sensorName) (reached (published obs)).
Proof.
  unfold publishToMqtt. destruct (nullish obs); [reflexivity|].
  apply publishes_publish_loop.
Qed.

Lemma publishable_publishes (obs : jsval) :
  publishable obs = true ->
  publishes (fst (publishToMqtt sensorName obs))
  = flat_map (messages sensorName) (published obs).
Proof.
  intros Hp. rewrite publishToMqtt_publishes. unfold publishable in Hp.
  apply andb_true_iff in Hp. destruct Hp as [Hn Hc].
  apply negb_true_iff in Hn. rewrite Hn. now rewrite reached_all.
Qed.
End PublishLoop.

(** ** The retrier *)

Section CycleFacts.
Context `{Network}.
Variable cfg : config.

(** The loop test against the turns that are left. *)
Lemma lt_int_false (a : Z) :
  lt_int a (retries cfg) = false <-> turns_left a (retries cfg) = 0%nat.
Proof.
  unfold lt_int, turns_left. destruct (retries cfg) as [|z]; [tauto|].
  rewrite Z.ltb_ge. lia.
Qed.

Lemma lt_int_true (a : Z) (n : nat) :
  turns_left a (retries cfg) = S n ->
  lt_int a (retries cfg) = true /\ turns_left (a + 1) (retries cfg) = n.
Proof.
  unfold lt_int, turns_left. destruct (retries cfg) as [|z]; [discriminate|].
  rewrite Z.ltb_lt. lia.
Qed.

Lemma retry_step (s : string) (a : Z) (w : world) :
  retry cfg s a w =
  if lt_int a (retries cfg) then
    match attempt_once cfg s a w with
    | (evs, true, w1) => (evs, true, w1)
    | (evs, false, w1) =>
        let '(evs', returned, w2) := retry cfg s (a + 1) w1 in
        ((evs ++ setTimeout 2000 :: evs')%list, returned, w2)
    end
  else ([], false, w).
Proof.
  rewrite retry_equation_1.
  destruct (sumbool_of_bool (lt_int a (retries cfg))) as [e|e];
    cbn [retry_unfold_clause_1]; rewrite e; reflexivity.
Qed.

(** The test of line 107 lets through the responses with an observation,
    and line 108 takes the first. *)
Lemma first_observation_fetched (r : response) :
  first_observation r = fetched (Fulfilled r).
Proof.
  unfold first_observation, fetched. destruct (data r) as [d|]; [|reflexivity].
  destruct (observations d) as [[|obs rest]|]; reflexivity.
Qed.

(** How the [try] is left, by what the call has fetched. *)
Lemma handle_turn (result : settled) :
  snd (handle cfg result) =
  match fetched result with
  | Some obs => if publishable obs then returns else catches TypeError
  | None =>
      match result with
      | Rejected m => catches (AxiosError m)
      | Fulfilled _ => passes
      end
  end.
Proof.
  unfold handle. destruct result as [m|r]; [reflexivity|].
  rewrite first_observation_fetched. destruct (fetched (Fulfilled r)) as [obs|]; [|reflexivity].
  pose proof (publishToMqtt_thrown (SENSOR_NAME cfg) obs) as Ht.
  destruct (publishToMqtt (SENSOR_NAME cfg) obs) as [done [e|]]; cbn [snd] in *;
    destruct (publishable obs); congruence.
Qed.

(** What is done inside the [try], by what the call has fetched. *)
Lemma handle_events (result : settled) :
  fst (handle cfg result) =
  match fetched result with
  | Some obs => publishToMqtt_call obs :: fst (publishToMqtt (SENSOR_NAME cfg) obs)
  | None => []
  end.
Proof.
  unfold handle. destruct result as [m|r]; [reflexivity|].
  rewrite first_observation_fetched. destruct (fetched (Fulfilled r)) as [obs|]; [|reflexivity].
  destruct (publishToMqtt (SENSOR_NAME cfg) obs) as [done [e|]]; reflexivity.
Qed.

(** One turn of the [while] loop, written out: the call, what is done
    inside the [try], and the error line when something was caught; the
    turn returns exactly when the call completes. *)
Lemma attempt_once_eq (s : string) (a : Z) (w : world) :
  let result := fst (fetchWeather cfg s w) in
  attempt_once cfg s a w =
  ((fetchWeather_call s result :: fst (handle cfg result)
      ++ match snd (handle cfg result) with
         | catches e => [console_error (ErrorFetching s (a + 1) e)]
         | _ => []
         end)%list,
   completes result,
   snd (fetchWeather cfg s w)).
Proof.
  unfold attempt_once. destruct (fetchWeather cfg s w) as [result w']. cbn [fst snd].
  pose proof (handle_turn result) as Ht. unfold completes.
  destruct (handle cfg result) as [evs t]. cbn [fst snd] in *.
  destruct result as [m|r]; [subst t; reflexivity|].
  destruct (fetched (Fulfilled r)) as [obs|]; [|subst t; now rewrite app_nil_r].
  destruct (publishable obs); subst t; [now rewrite app_nil_r | reflexivity].
Qed.

(** The calls of one turn: the one call of line 106. *)
Lemma attempt_once_calls (s : string) (a : Z) (w : world) :
  calls (fst (fst (attempt_once cfg s a w))) = [(s, fst (fetchWeather cfg s w))].
Proof.
  rewrite attempt_once_eq. cbn [fst]. set (result := fst (fetchWeather cfg s w)).
  change (fetchWeather_call s result :: ?l) with ([fetchWeather_call s result] ++ l)%list.
  rewrite !calls_app, handle_events.
  replace (calls (match fetched result with
                  | Some obs => publishToMqtt_call obs
                                  :: fst (publishToMqtt (SENSOR_NAME cfg) obs)
                  | None => []
                  end)) with (@nil (string * settled)).
  - destruct (snd (handle cfg result)); reflexivity.
  - destruct (fetched result) as [obs|]; [|reflexivity].
    symmetry. apply (publishToMqtt_quiet (SENSOR_NAME cfg) obs).
Qed.

Lemma of_publisher_of_turn (e : event) : of_publisher e -> of_turn e.
Proof. destruct e as [t| | | | | | | |]; try destruct t; cbn; tauto. Qed.

(** One turn is its call, followed by events that are neither calls, nor
    timers, nor waits, nor exits. *)
Lemma attempt_once_shape (s : string) (a : Z) (w : world) :
  exists rest,
    fst (fst (attempt_once cfg s a w))
    = fetchWeather_call s (fst (fetchWeather cfg s w)) :: rest /\
    Forall of_turn rest.
Proof.
  rewrite attempt_once_eq. cbn [fst]. set (result := fst (fetchWeather cfg s w)).
  eexists. split; [reflexivity|]. apply Forall_app. split.
  - rewrite handle_events. destruct (fetched result) as [obs|]; [|constructor].
    constructor; [exact I|].
    eapply Forall_impl; [|apply publishToMqtt_events]. apply of_publisher_of_turn.
  - destruct (snd (handle cfg result)); repeat constructor.
Qed.

Lemma quiet_turn (evs : list event) :
  Forall of_turn evs ->
  calls evs = [] /\ timers evs = [] /\ waits evs = [] /\ exits evs = [].
Proof.
  intros Hall.
  repeat split; apply flat_map_nil; (eapply Forall_impl; [|exact Hall]);
    intros [t| | | | | | | |] He; try destruct t; first [contradiction | reflexivity].
Qed.

(** One turn: either the call completes and the turn is the call followed
    by [publishToMqtt] and all its messages, or the call is one that does
    not complete. *)
Lemma attempt_once_cases (s : string) (a : Z) (w : world) :
  match attempt_once cfg s a w with
  | (evs, true, _) => first_success cfg [] s 0 evs
  | (evs, false, _) => exhausted [s] evs
  end.
Proof.
  pose proof (attempt_once_calls s a w) as Hc.
  rewrite attempt_once_eq in *. cbn [fst] in Hc.
  set (result := fst (fetchWeather cfg s w)) in *.
  destruct (completes result) eqn:Ec.
  - assert (exists obs, fetched result = Some obs /\ publishable obs = true)
      as (obs & Ef & Ep).
    { unfold completes in Ec.
      destruct (fetched result) as [obs|]; [now exists obs | discriminate]. }
    assert (Ht : snd (handle cfg result) = returns).
    { now rewrite handle_turn, Ef, Ep. }
    rewrite Ht, app_nil_r, handle_events, Ef.
    exists [], result, obs, (fst (publishToMqtt (SENSOR_NAME cfg) obs)).
    pose proof (publishToMqtt_thrown (SENSOR_NAME cfg) obs) as Hn. rewrite Ep in Hn.
    repeat split; try reflexivity; try assumption.
    + constructor.
    + destruct (publishToMqtt (SENSOR_NAME cfg) obs) as [done thrown]. cbn in *. now subst.
    + now apply publishable_publishes.
    + apply (publishToMqtt_quiet (SENSOR_NAME cfg) obs).
  - split.
    + now rewrite Hc.
    + unfold none_completes. rewrite Hc. constructor; [exact Ec | constructor].
Qed.

(** Events that are not calls can be put between two parts of a trace. *)
Lemma exhausted_app (p q : list string) (evs mid evs' : list event) :
  calls mid = [] ->
  exhausted p evs -> exhausted q evs' ->
  exhausted (p ++ q) (evs ++ mid ++ evs').
Proof.
  intros Hc (E1 & F1) (E2 & F2). unfold exhausted, none_completes.
  rewrite !calls_app, Hc. cbn [app].
  rewrite map_app, E1, E2. split; [reflexivity|].
  apply Forall_app. now split.
Qed.

Lemma first_success_app (p q : list string) (s : string) (k : nat)
      (evs mid evs' : list event) :
  calls mid = [] ->
  exhausted p evs -> first_success cfg q s k evs' ->
  first_success cfg (p ++ q) s k (evs ++ mid ++ evs').
Proof.
  intros Hc (E1 & F1)
         (earlier & result & obs & done & -> & E2 & F2 & Hf & Hp & Hd & Hm & Cd).
  exists (evs ++ mid ++ earlier)%list, result, obs, done.
  unfold none_completes. rewrite !calls_app, Hc. cbn [app].
  rewrite map_app, E1, E2, <- !app_assoc. repeat split; try assumption; try reflexivity.
  apply Forall_app. now split.
Qed.

(** The [while] loop: with [n] turns left it either stops at the first
    call that completes, after fewer than [n] that did not, or makes
    exactly [n] calls none of which completes. *)
Lemma retry_cases (s : string) (n : nat) : forall (a : Z) (w : world),
  turns_left a (retries cfg) = n ->
  match retry cfg s a w with
  | (evs, true, _) => exists k, (k < n)%nat /\ first_success cfg [] s k evs
  | (evs, false, _) => exhausted (repeat s n) evs
  end.
Proof.
  induction n as [|n IH]; intros a w Hn; rewrite retry_step.
  - apply lt_int_false in Hn. rewrite Hn. repeat split; constructor.
  - apply lt_int_true in Hn. destruct Hn as [Hlt Hn]. rewrite Hlt.
    pose proof (attempt_once_cases s a w) as Hone.
    destruct (attempt_once cfg s a w) as [[evs [|]] w1].
    + exists 0%nat. split; [lia | exact Hone].
    + specialize (IH (a + 1) w1 Hn).
      destruct (retry cfg s (a + 1) w1) as [[evs' [|]] w2].
      * destruct IH as (k & Hk & Hs). exists (S k). split; [lia|].
        apply (first_success_app (p := [s]) (q := []) [setTimeout 2000]
                 eq_refl Hone Hs).
      * apply (exhausted_app (p := [s]) [setTimeout 2000] eq_refl Hone IH).
Qed.

(** The [for] loop over the stations. *)
Lemma stations_loop_cases (ids : list string) : forall (w : world),
  match stations_loop cfg ids w with
  | (evs, true, _) =>
      exists before s after k,
        ids = (before ++ s :: after)%list /\
        (k < budget (retries cfg))%nat /\
        first_success cfg (schedule cfg before) s k evs
  | (evs, false, _) => exhausted (schedule cfg ids) evs
  end.
Proof.
  induction ids as [|s rest IH]; intros w; cbn [stations_loop].
  - repeat split; constructor.
  - pose proof (@retry_cases s (budget (retries cfg)) 0 w eq_refl) as Hr.
    destruct (retry cfg s 0 w) as [[evs [|]] w1].
    + destruct Hr as (k & Hk & Hs). exists [], s, rest, k. now repeat split.
    + specialize (IH w1).
      destruct (stations_loop cfg rest w1) as [[evs' [|]] w2].
      * destruct IH as (before & s' & after & k & -> & Hk & Hs).
        exists (s :: before), s', after, k. repeat split; [assumption|].
        apply (first_success_app [console_log (ExhaustedRetries s)]
                 eq_refl Hr Hs).
      * apply (exhausted_app [console_log (ExhaustedRetries s)] eq_refl Hr IH).
Qed.

Lemma by_calls_app (evs evs' : list event) :
  by_calls (SENSOR_NAME cfg) evs -> by_calls (SENSOR_NAME cfg) evs' ->
  by_calls (SENSOR_NAME cfg) (evs ++ evs').
Proof.
  intros [E1 P1] [E2 P2]. unfold by_calls.
  now rewrite entered_app, publishes_app, calls_app, !flat_map_app, E1, P1, E2, P2.
Qed.

Lemma attempt_once_by_calls (s : string) (a : Z) (w : world) :
  by_calls (SENSOR_NAME cfg) (fst (fst (attempt_once cfg s a w))).
Proof.
  unfold by_calls. rewrite attempt_once_calls, attempt_once_eq. cbn [fst snd flat_map].
  set (result := fst (fetchWeather cfg s w)). rewrite !app_nil_r.
  change (fetchWeather_call s result :: ?l) with ([fetchWeather_call s result] ++ l)%list.
  rewrite !entered_app, !publishes_app, handle_events. unfold handed, sent. cbn [snd].
  assert (Hq : entered (match snd (handle cfg result) with
                        | catches e => [console_error (ErrorFetching s (a + 1) e)]
                        | _ => []
                        end) = [] /\
               publishes (match snd (handle cfg result) with
                          | catches e => [console_error (ErrorFetching s (a + 1) e)]
                          | _ => []
                          end) = []).
  { destruct (snd (handle cfg result)); split; reflexivity. }
  destruct Hq as [-> ->]. rewrite !app_nil_r.
  destruct (fetched result) as [obs|]; [|split; reflexivity].
  destruct (publishToMqtt_quiet (SENSOR_NAME cfg) obs) as (_ & _ & He & _).
  cbn zeta in He.
  change (publishToMqtt_call obs :: ?l) with ([publishToMqtt_call obs] ++ l)%list.
  rewrite entered_app, publishes_app, He. split; reflexivity.
Qed.

Lemma retry_by_calls (s : string) (n : nat) : forall (a : Z) (w : world),
  turns_left a (retries cfg) = n ->
  by_calls (SENSOR_NAME cfg) (fst (fst (retry cfg s a w))).
Proof.
  induction n as [|n IH]; intros a w Hn; rewrite retry_step.
  - apply lt_int_false in Hn. rewrite Hn. split; reflexivity.
  - apply lt_int_true in Hn. destruct Hn as [Hlt Hn]. rewrite Hlt.
    pose proof (attempt_once_by_calls s a w) as Hone.
    destruct (attempt_once cfg s a w) as [[evs [|]] w1]; [exact Hone|].
    specialize (IH (a + 1) w1 Hn).
    destruct (retry cfg s (a + 1) w1) as [[evs' r] w2]. cbn [fst] in *.
    apply by_calls_app; [exact Hone|].
    apply (by_calls_app (evs := [setTimeout 2000])); [split; reflexivity | exact IH].
Qed.

Lemma stations_loop_by_calls (ids : list string) : forall (w : world),
  by_calls (SENSOR_NAME cfg) (fst (fst (stations_loop cfg ids w))).
Proof.
  induction ids as [|s rest IH]; intros w; cbn [stations_loop]; [split; reflexivity|].
  pose proof (@retry_by_calls s _ 0 w eq_refl) as Hr.
  destruct (retry cfg s 0 w) as [[evs [|]] w1]; [exact Hr|].
  specialize (IH w1). destruct (stations_loop cfg rest w1) as [[evs' r] w2].
  cbn [fst] in *. apply by_calls_app; [exact Hr|].
  apply (by_calls_app (evs := [console_log (ExhaustedRetries s)]));
    [split; reflexivity | exact IH].
Qed.

Lemma fetchAndPublish_by_calls (w : world) :
  by_calls (SENSOR_NAME cfg) (fst (fst (fetchAndPublish cfg w))).
Proof.
  unfold fetchAndPublish. pose proof (stations_loop_by_calls (stationIds cfg) w) as Hl.
  destruct (stations_loop cfg (stationIds cfg) w) as [[evs [|]] w1]; cbn [fst] in *.
  - exact Hl.
  - apply by_calls_app; [exact Hl | split; reflexivity].
Qed.



(** How a cycle ends: it returns [true] from inside the loops, or reaches
    lines 120 and 121 after them. *)
Lemma fetchAndPublish_cases (w : world) :
  let '(evs, c, _) := fetchAndPublish cfg w in
  (c = Exited 7 /\
   exhausted (schedule cfg (stationIds cfg)) evs /\
   exists before, evs = (before ++ [console_error FailedAllStations; process_exit 7])%list)
  \/
  (c = Returned true /\
   exists before s after k,
     stationIds cfg = (before ++ s :: after)%list /\
     (k < budget (retries cfg))%nat /\
     first_success cfg (schedule cfg before) s k evs).
Proof.
  unfold fetchAndPublish.
  pose proof (stations_loop_cases (stationIds cfg) w) as Hl.
  destruct (stations_loop cfg (stationIds cfg) w) as [[evs [|]] w1].
  - right. split; [reflexivity | exact Hl].
  - left. destruct Hl as (Hc & Hf). split; [reflexivity|]. split; [|now exists evs].
    unfold exhausted. rewrite calls_app. cbn [calls flat_map app]. rewrite app_nil_r.
    now split.
Qed.

(** C1, as the code has it.  A cycle of [fetchAndPublish] calls the stations
    in the configured order, each at most [budget (retries cfg)] times in a
    row.  Write that a call completes when it fetches an observation, in
    the sense of section 4.1 of the specification, and that observation is
    published without an exception.  Either every station is called exactly
    [budget (retries cfg)] times, no call completes and the cycle ends in
    [process.exit(7)]; or the cycle returns [true] right after the first
    call that completes: that call is the [k+1]-th to some station [s] with
    [k] below the budget, every station listed before [s] has used its whole
    budget, no earlier call completed, and the trace ends with the call,
    [publishToMqtt] on the observation it fetched and the messages of that
    observation, without any further call. *)
Theorem fetchAndPublish_order_budget_first_success (w : world) :
  let '(evs, c, _) := fetchAndPublish cfg w in
  let per_station := fun s => repeat s (budget (retries cfg)) in
  (c = Exited 7 /\
   map fst (calls evs) = flat_map per_station (stationIds cfg) /\
   none_completes (calls evs))
  \/
  (exists before s after k earlier result obs done,
     c = Returned true /\
     stationIds cfg = (before ++ s :: after)%list /\
     (k < budget (retries cfg))%nat /\
     evs = (earlier ++ fetchWeather_call s result :: publishToMqtt_call obs :: done)%list /\
     map fst (calls earlier) = (flat_map per_station before ++ repeat s k)%list /\
     none_completes (calls earlier) /\
     fetched result = Some obs /\
     publishable obs = true /\
     publishes done = flat_map (messages (SENSOR_NAME cfg)) (published obs) /\
     calls done = []).
Proof.
  pose proof (fetchAndPublish_cases w) as Hc.
  destruct (fetchAndPublish cfg w) as [[evs c] w1].
  destruct Hc as [(-> & (Hs & Hf) & _) | (-> & before & s & after & k & Hids & Hk & Hs)].
  - left. now repeat split.
  - right.
    destruct Hs as (earlier & result & obs & done & -> & Hc & Hf & Ho & Hp & _ & Hm & Cd).
    exists before, s, after, k, earlier, result, obs, done. now repeat split.
Qed.


(** Without a turn of the [while] loop, the [for] loop only writes its
    line for each station. *)
Lemma stations_loop_no_budget (ids : list string) (w : world) :
  budget (retries cfg) = 0%nat ->
  stations_loop cfg ids w =
  (map (fun s => console_log (ExhaustedRetries s)) ids, false, w).
Proof.
  intros Hb. apply lt_int_false in Hb.
  induction ids as [|s rest IH]; cbn [stations_loop map]; [reflexivity|].
  rewrite retry_step, Hb, IH. reflexivity.
Qed.

Lemma fetchAndPublish_no_budget (w : world) :
  budget (retries cfg) = 0%nat ->
  fetchAndPublish cfg w =
  ((map (fun s => console_log (ExhaustedRetries s)) (stationIds cfg)
      ++ [console_error FailedAllStations; process_exit 7])%list, Exited 7, w).
Proof.
  intros Hb. unfold fetchAndPublish. now rewrite stations_loop_no_budget.
Qed.

Lemma armed_after_no_call (timer : event) (ids : list string) (tail : list event) :
  calls tail = [] ->
  armed_after_first_call timer
    (map (fun s => console_log (ExhaustedRetries s)) ids ++ tail) =
  (map (fun s => console_log (ExhaustedRetries s)) ids ++ tail)%list.
Proof.
  intros Ht. induction ids as [|s rest IH]; cbn.
  - induction tail as [|e tail IH]; [reflexivity|].
    destruct e; cbn in *; try discriminate; now rewrite IH.
  - now rewrite IH.
Qed.
End CycleFacts.

(** ** Start-up and the connect handler *)

Lemma test_reserved_iff (s : string) :
  test_reserved s = true <->
  exists c, In c (list_ascii_of_string s) /\
            (c = "+"%char \/ c = "#"%char \/ c = "000"%char).
Proof.
  induction s as [|a s IH]; cbn [test_reserved list_ascii_of_string In].
  - split; [discriminate | intros (c & [] & _)].
  - rewrite orb_true_iff, IH. unfold reserved.
    rewrite !orb_true_iff, !Ascii.eqb_eq. split.
    + intros [Ha | (c & Hin & Hc)]; [exists a | exists c]; tauto.
    + intros (c & [-> | Hin] & Hc); [tauto | right; now exists c].
Qed.

Lemma below_one_iff (ms : Q) : below_one ms = true <-> (ms < 1)%Q.
Proof.
  unfold below_one. rewrite orb_true_iff, negb_true_iff, Qeq_bool_iff.
  split.
  - intros [E | E].
    + rewrite E. reflexivity.
    + apply Qnot_le_lt. intros Hle. apply Qle_bool_iff in Hle. congruence.
  - intros Hlt. right. destruct (Qle_bool 1 ms) eqn:E; [|reflexivity].
    apply Qle_bool_iff in E. exfalso. exact (Qlt_not_le _ _ Hlt E).
Qed.

Section Scheduler.
Context `{Network}.

Lemma startup_ready (env : Env.t) (cfg : config) :
  snd (startup env) = Ready cfg ->
  startup env = ([mqtt_connect (options_of env)], Ready (config_of env)).
Proof.
  unfold startup.
  destruct (missing (Env.SENSOR_NAME env) || missing (Env.API_KEY env)
            || missing (Env.STATION_ID env) || missing (Env.MQTT_HOST env)
            || missing (Env.MQTT_PORT env)); [discriminate|].
  destruct (negb (isValidMqttTopic (Env.SENSOR_NAME env))); [discriminate|].
  reflexivity.
Qed.

Lemma main_connect (env : Env.t) (cfg : config) (ls : list lifecycle) (w : world) :
  snd (startup env) = Ready cfg ->
  main env (connect :: ls) w =
  match on_connect (config_of env) w with
  | (evs, Stopped code, w1) => (mqtt_connect (options_of env) :: evs, Stopped code, w1)
  | (evs, Running, w1) =>
      let '(evs', st, w2) := serve (config_of env) ls w1 in
      ((mqtt_connect (options_of env) :: evs ++ evs')%list, st, w2)
  end.
Proof.
  intros Hs. unfold main. rewrite (startup_ready _ Hs). cbn [serve on].
  destruct (on_connect (config_of env) w) as [[evs [|code]] w1]; [|reflexivity].
  destruct (serve (config_of env) ls w1) as [[evs' st] w2]. reflexivity.
Qed.

(** A cycle arms no timer. *)
Lemma timers_attempt_once (cfg : config) (s : string) (a : Z) (w : world) :
  timers (fst (fst (attempt_once cfg s a w))) = [].
Proof.
  destruct (attempt_once_shape cfg s a w) as (rest & -> & Hr).
  apply quiet_turn in Hr. cbn. tauto.
Qed.

Lemma timers_retry (cfg : config) (s : string) (n : nat) : forall (a : Z) (w : world),
  turns_left a (retries cfg) = n ->
  timers (fst (fst (retry cfg s a w))) = [].
Proof.
  induction n as [|n IH]; intros a w Hn; rewrite retry_step.
  - apply lt_int_false in Hn. now rewrite Hn.
  - apply lt_int_true in Hn. destruct Hn as [Hlt Hn]. rewrite Hlt.
    pose proof (timers_attempt_once cfg s a w) as Hone.
    destruct (attempt_once cfg s a w) as [[evs [|]] w1]; [exact Hone|].
    specialize (IH (a + 1) w1 Hn).
    destruct (retry cfg s (a + 1) w1) as [[evs' r] w2]. cbn [fst] in *.
    rewrite timers_app, Hone. cbn. exact IH.
Qed.

Lemma timers_stations_loop (cfg : config) (ids : list string) : forall (w : world),
  timers (fst (fst (stations_loop cfg ids w))) = [].
Proof.
  induction ids as [|s rest IH]; intros w; cbn [stations_loop]; [reflexivity|].
  pose proof (@timers_retry cfg s _ 0 w eq_refl) as Hr.
  destruct (retry cfg s 0 w) as [[evs [|]] w1]; [exact Hr|].
  specialize (IH w1). destruct (stations_loop cfg rest w1) as [[evs' r] w2].
  cbn [fst] in *. rewrite timers_app, Hr. cbn. exact IH.
Qed.

Lemma timers_fetchAndPublish (cfg : config) (w : world) :
  timers (fst (fst (fetchAndPublish cfg w))) = [].
Proof.
  unfold fetchAndPublish. pose proof (timers_stations_loop cfg (stationIds cfg) w) as Hl.
  destruct (stations_loop cfg (stationIds cfg) w) as [[evs [|]] w1]; cbn [fst] in *.
  - exact Hl.
  - rewrite timers_app, Hl. reflexivity.
Qed.

Lemma fetchAndPublish_completion (cfg : config) (w : world) :
  snd (fst (fetchAndPublish cfg w)) = Returned true \/
  snd (fst (fetchAndPublish cfg w)) = Exited 7.
Proof.
  unfold fetchAndPublish.
  destruct (stations_loop cfg (stationIds cfg) w) as [[evs [|]] w1]; cbn; tauto.
Qed.

(** C6, as the code has it.  With the other required variables set, a
    sensor-set name that is empty or holds [+], [#] or NUL stops the
    process at the top level, before [mqtt.connect] and before any fetch:
    the empty name is reported as missing configuration with exit code 2
    (line 21 comes first), any other such name as invalid with exit
    code 4. *)
Theorem bad_sensor_name_rejected_at_startup
        (env : Env.t) (name : string) (ls : list lifecycle) (w : world) :
  Env.SENSOR_NAME env = Some name ->
  missing (Env.API_KEY env) = false ->
  missing (Env.STATION_ID env) = false ->
  missing (Env.MQTT_HOST env) = false ->
  missing (Env.MQTT_PORT env) = false ->
  (name = "" \/
   exists c, In c (list_ascii_of_string name) /\
             (c = "+"%char \/ c = "#"%char \/ c = "000"%char)) ->
  main env ls w =
  if String.eqb name ""
  then ([console_error MissingEnv; process_exit 2], Stopped 2, w)
  else ([console_error InvalidSensorName; process_exit 4], Stopped 4, w).
Proof.
  intros Hn Ha Hs Hh Hp Hbad. unfold main, startup.
  rewrite Hn, Ha, Hs, Hh, Hp. cbn [missing isValidMqttTopic orb].
  destruct (String.eqb name "") eqn:E; [reflexivity|].
  apply String.eqb_neq in E. destruct Hbad as [-> | Hc]; [congruence|].
  apply test_reserved_iff in Hc. rewrite Hc, andb_false_r. reflexivity.
Qed.

(** C7, as the code has it.  When [EXEC_EVERY] is set to the empty string,
    the connect handler runs one cycle of [fetchAndPublish] and arms no
    timer: after the connection, the trace of the process is that one
    cycle, and the process stops with code 7 when the cycle fails.  When
    [EXEC_EVERY] is not set, the default of line 18 applies and the handler
    takes the other branch: with [1m] a valid duration, the cycle is started
    and [setInterval] is called as soon as the cycle awaits its first call. *)
Theorem one_shot_only_for_empty_EXEC_EVERY (env : Env.t) (w : world) :
  snd (startup env) = Ready (config_of env) ->
  let '(cycle, c, w1) := fetchAndPublish (config_of env) w in
  (Env.EXEC_EVERY env = Some "" ->
   exists st,
     main env [connect] w =
       (mqtt_connect (options_of env) :: console_log Connected :: cycle, st, w1) /\
     timers (mqtt_connect (options_of env) :: console_log Connected :: cycle) = [] /\
     (c = Exited 7 -> st = Stopped 7))
  /\
  (Env.EXEC_EVERY env = None ->
   EXEC_EVERY (config_of env) = "1m" /\
   forall ms, parseDuration "1m" = Some ms -> ~ (ms < 1)%Q ->
     main env [connect] w =
       (mqtt_connect (options_of env) :: console_log Connected
          :: armed_after_first_call (setInterval ms) cycle, status_of c, w1)).
Proof.
  intros Hs.
  pose proof (timers_fetchAndPublish (config_of env) w) as Ht.
  pose proof (fetchAndPublish_completion (config_of env) w) as Hc.
  rewrite main_connect with (cfg := config_of env) by exact Hs. unfold on_connect.
  destruct (fetchAndPublish (config_of env) w) as [[cycle c] w1]. cbn [fst snd] in *.
  split; intros He.
  - replace (EXEC_EVERY (config_of env)) with "" by (cbn; now rewrite He).
    cbn [String.eqb negb].
    destruct Hc as [-> | ->].
    + exists Running. cbn [serve]. rewrite app_nil_r.
      repeat split; [exact Ht | discriminate].
    + exists (Stopped 7). repeat split. exact Ht.
  - assert (Hd : EXEC_EVERY (config_of env) = "1m") by (cbn; now rewrite He).
    split; [exact Hd|]. intros ms Hp Hms. rewrite Hd, Hp. cbn [String.eqb Ascii.eqb negb].
    destruct (below_one ms) eqn:Eb; [apply below_one_iff in Eb; contradiction|].
    destruct Hc as [-> | ->]; cbn [status_of serve]; [now rewrite app_nil_r | reflexivity].
Qed.

(** C9, as the code has it.  Once the start-up checks have passed and the
    broker reports the connection, a non-empty [EXEC_EVERY] that
    [parseDuration] does not parse, or parses to less than one millisecond,
    makes the handler write its error and call [process.exit(3)]; no call
    of [fetchWeather] has been made. *)
Theorem bad_EXEC_EVERY_exit_3
        (env : Env.t) (every : string) (ls : list lifecycle) (w : world) :
  snd (startup env) = Ready (config_of env) ->
  Env.EXEC_EVERY env = Some every ->
  every <> "" ->
  (parseDuration every = None \/
   exists ms, parseDuration every = Some ms /\ (ms < 1)%Q) ->
  main env (connect :: ls) w =
  ([mqtt_connect (options_of env); console_log Connected;
    console_error InvalidExecEvery; process_exit 3], Stopped 3, w).
Proof.
  intros Hs He Hne Hbad. rewrite main_connect with (cfg := config_of env) by exact Hs. unfold on_connect.
  replace (EXEC_EVERY (config_of env)) with every by (cbn; now rewrite He).
  apply String.eqb_neq in Hne. rewrite Hne. cbn [negb].
  destruct Hbad as [-> | (ms & -> & Hlt)]; [reflexivity|].
  apply below_one_iff in Hlt. rewrite Hlt. reflexivity.
Qed.

(** C10.  When [parseInt] reads [RETRIES] as NaN, zero or a negative
    number, the body of the [while] loop never runs: a cycle calls
    [fetchWeather] for no station, writes one line per station and ends in
    [process.exit(7)].  The top level reports nothing about [RETRIES]: once
    the broker is connected (and [EXEC_EVERY] is empty or a valid
    duration), the whole trace of the process is the connection followed by
    that cycle. *)
Theorem no_retry_budget_exit_7_without_fetch
        (env : Env.t) (ls : list lifecycle) (w : world) :
  let cfg := config_of env in
  let cycle := (map (fun s => console_log (ExhaustedRetries s)) (stationIds cfg)
                  ++ [console_error FailedAllStations; process_exit 7])%list in
  snd (startup env) = Ready cfg ->
  (parseInt (or_default (Env.RETRIES env) "5") = NaN \/
   exists z, parseInt (or_default (Env.RETRIES env) "5") = Int z /\ z <= 0) ->
  (EXEC_EVERY cfg = "" \/
   exists ms, parseDuration (EXEC_EVERY cfg) = Some ms /\ ~ (ms < 1)%Q) ->
  fetchAndPublish cfg w = (cycle, Exited 7, w) /\
  calls cycle = [] /\
  main env (connect :: ls) w =
    (mqtt_connect (options_of env) :: console_log Connected :: cycle, Stopped 7, w).
Proof.
  intros cfg cycle Hs Hr He.
  assert (Hb : budget (retries cfg) = 0%nat).
  { unfold budget, turns_left. cbn [cfg config_of retries].
    destruct Hr as [-> | (z & -> & Hz)]; [reflexivity | lia]. }
  assert (Hc : calls cycle = []).
  { unfold cycle. rewrite calls_app. cbn [calls flat_map app].
    induction (stationIds cfg) as [|s l IH]; [reflexivity | exact IH]. }
  pose proof (@fetchAndPublish_no_budget _ _ cfg w Hb) as Hf. fold cycle in Hf.
  repeat split; [exact Hf | exact Hc |].
  rewrite main_connect with (cfg := config_of env) by exact Hs. fold cfg. unfold on_connect. rewrite Hf.
  destruct He as [-> | (ms & -> & Hms)]; [reflexivity|].
  destruct (String.eqb (EXEC_EVERY cfg) ""); cbn [negb]; [reflexivity|].
  destruct (below_one ms) eqn:Eb; [apply below_one_iff in Eb; contradiction|].
  unfold cycle. rewrite armed_after_no_call by reflexivity. reflexivity.
Qed.
End Scheduler.

(** ** The mapper and the publisher *)

Section Mapper.
Context `{Host}.

Lemma sensors_by_table (obs : jsval) : sensors obs = flat_map (row obs) table.
Proof.
  unfold sensors, table. rewrite flat_map_app. f_equal.
  unfold metric_sensors.
  set (metric := get obs "metric").
  assert (Hr : forall k, existsb (String.eqb k) fixed_keys = false ->
               reading obs k =
               if truthy metric && typeof_object metric then get metric k else Undefined).
  { intros k Hk. unfold reading. now rewrite Hk. }
  destruct (truthy metric && typeof_object metric);
    unfold metricMap; cbn [map flat_map row metric_sensor];
    rewrite !Hr by reflexivity; reflexivity.
Qed.

Lemma filter_flat_map {A B : Type} (p : B -> bool) (f : A -> list B) (l : list A) :
  filter p (flat_map f l) = flat_map (fun x => filter p (f x)) l.
Proof.
  induction l as [|x l IH]; [reflexivity|].
  cbn [flat_map]. now rewrite filter_app, IH.
Qed.


Lemma filter_id {A : Type} (p : A -> bool) (l : list A) :
  (forall x, In x l -> p x = true) -> filter p l = l.
Proof.
  induction l as [|x l IH]; intros E; [reflexivity|].
  cbn [filter]. rewrite E by now left. rewrite IH; [reflexivity|].
  intros y Hy. apply E. now right.
Qed.

Lemma flat_map_ext_in {A B : Type} (f g : A -> list B) (l : list A) :
  (forall x, In x l -> f x = g x) -> flat_map f l = flat_map g l.
Proof.
  induction l as [|x l IH]; intros E; [reflexivity|].
  cbn [flat_map]. rewrite E by now left. rewrite IH; [reflexivity|].
  intros y Hy. apply E. now right.
Qed.

(** The keys of the entries that a choice of rows by key gives. *)
Lemma keys_of_rows (q : string -> bool) (v : string -> jsval)
      (l : list (string * meta * bool)) :
  map key (flat_map (fun r => if q (row_key r)
                              then [entry (row_key r) (snd (fst r)) (v (row_key r))]
                              else []) l)
  = filter q (map row_key l).
Proof.
  induction l as [|r l IH]; [reflexivity|].
  cbn [flat_map map filter]. destruct (q (row_key r)); cbn; now rewrite IH.
Qed.

Lemma schema_table : schema = map row_key table.
Proof. reflexivity. Qed.

Lemma table_always (r : string * meta * bool) :
  In r table -> snd r = existsb (String.eqb (row_key r)) fixed_keys.
Proof.
  unfold table, metricMap. cbn [map app In].
  intros Hr. repeat (destruct Hr as [<- | Hr]; [reflexivity|]). destruct Hr.
Qed.

Lemma row_constructed (obs : jsval) (r : string * meta * bool) :
  In r table ->
  row obs r = if constructed obs (row_key r)
              then [entry (row_key r) (snd (fst r)) (reading obs (row_key r))]
              else [].
Proof.
  intros Hr. apply table_always in Hr. unfold constructed. rewrite <- Hr.
  now destruct r as [[k m] always].
Qed.

Lemma row_published (obs : jsval) (r : string * meta * bool) :
  filter (fun s => negb (nullish (value s))) (row obs r)
  = if negb (nullish (reading obs (row_key r)))
    then [entry (row_key r) (snd (fst r)) (reading obs (row_key r))]
    else [].
Proof.
  destruct r as [[k m] always]. unfold row, row_key. cbn [fst snd].
  destruct (nullish (reading obs k)) eqn:E; destruct always; cbn; rewrite ?E; reflexivity.
Qed.

Lemma sensors_keys (obs : jsval) :
  map key (sensors obs) = filter (constructed obs) schema.
Proof.
  rewrite sensors_by_table, schema_table, <- keys_of_rows with (v := reading obs).
  apply (f_equal (map key)). apply flat_map_ext_in. intros r Hr. now apply row_constructed.
Qed.

Lemma published_by_table (obs : jsval) :
  published obs =
  flat_map (fun r => if negb (nullish (reading obs (row_key r)))
                     then [entry (row_key r) (snd (fst r)) (reading obs (row_key r))]
                     else []) table.
Proof.
  unfold published. rewrite sensors_by_table, filter_flat_map.
  apply flat_map_ext. intros r. apply row_published.
Qed.

Lemma published_keys (obs : jsval) :
  map key (published obs) = filter (fun k => negb (nullish (reading obs k))) schema.
Proof.
  rewrite published_by_table, schema_table.
  apply (keys_of_rows (fun k => negb (nullish (reading obs k))) (reading obs)).
Qed.

Lemma NoDup_schema : NoDup schema.
Proof.
  unfold schema, fixed_keys, metric_keys, metricMap. cbn [map app fst].
  repeat (constructor;
          [cbn [In]; intros Hin;
           repeat (destruct Hin as [Hin | Hin]; [discriminate|]); exact Hin |]).
  constructor.
Qed.

(** Readings decide the array: two observations that agree on every key of
    the schema outside [skip] give the same entries outside [skip]. *)
Lemma sensors_ext (skip : string -> bool) (obs obs' : jsval) :
  (forall k, In k schema -> skip k = false -> reading obs' k = reading obs k) ->
  filter (fun s => negb (skip (key s))) (sensors obs')
  = filter (fun s => negb (skip (key s))) (sensors obs).
Proof.
  intros E. rewrite !sensors_by_table, !filter_flat_map.
  apply flat_map_ext_in. intros r Hr.
  assert (Hk : In (row_key r) schema) by (rewrite schema_table; now apply in_map).
  destruct r as [[k m] always]. unfold row_key in Hk. cbn [fst] in Hk.
  destruct (skip k) eqn:Es.
  - unfold row.
    destruct (always || negb (nullish (reading obs' k)));
      destruct (always || negb (nullish (reading obs k))); cbn; rewrite ?Es; reflexivity.
  - unfold row. now rewrite (E k Hk Es).
Qed.

Section Publisher.
Variable sensorName : string.

Lemma config_topic_inj (k k' : string) :
  config_topic sensorName k = config_topic sensorName k' -> k = k'.
Proof.
  unfold config_topic. intros E.
  do 3 apply append_inj_l in E. now apply append_inj_r in E.
Qed.

Lemma state_topic_inj (k k' : string) :
  state_topic sensorName k = state_topic sensorName k' -> k = k'.
Proof.
  unfold state_topic. intros E.
  do 3 apply append_inj_l in E. now apply append_inj_r in E.
Qed.

Lemma config_topic_not_state (k k' : string) :
  config_topic sensorName k <> state_topic sensorName k'.
Proof.
  unfold config_topic, state_topic. intros E.
  do 3 apply append_inj_l in E. apply (f_equal last_char) in E.
  rewrite !last_char_append in E by discriminate. discriminate.
Qed.

Lemma messages_topic (s : sensor) (m : string * string * bool) :
  In m (messages sensorName s) ->
  fst (fst m) = config_topic sensorName (key s) \/
  fst (fst m) = state_topic sensorName (key s).
Proof.
  unfold messages. intros [<- | Hm]; [cbn; tauto|].
  destruct (ToString (value s)); [|destruct Hm].
  destruct Hm as [<- | []]. cbn. tauto.
Qed.



(** C3, as the code has it.  [publishToMqtt] sends the messages of the
    entries of [sensors] with a value, in the order of the array and as far
    as the loop gets: up to and including the first entry whose value
    [String] does not convert, which is to the last entry when [String]
    converts every value.  An entry whose value [String] converts has two
    retained messages: first the config message on
    [homeassistant/sensor/{SENSOR_NAME}/{key}/config], whose body is the
    JSON text of an object with [name], [state_topic], [unique_id] (the
    sensor-set name, an underscore and the key), [device], and
    [device_class] and [unit_of_measurement] exactly when the entry has
    them; then the state message on [.../{key}/state] with [String(value)].
    No key is published twice. *)
Theorem publish_config_then_state (obs : jsval) :
  publishes (fst (publishToMqtt sensorName obs))
  = (if nullish obs then []
     else flat_map (messages sensorName) (reached (published obs))) /\
  (exists rest, published obs = (reached (published obs) ++ rest)%list) /\
  (publishable obs = true ->
   snd (publishToMqtt sensorName obs) = None /\
   reached (published obs) = published obs) /\
  NoDup (map key (published obs)) /\
  forall s, In s (published obs) ->
    (forall state, ToString (value s) = Some state ->
       messages sensorName s =
         [ ("homeassistant/sensor/" ++ sensorName ++ "/" ++ key s ++ "/config",
            JSON_stringify (configPayload sensorName s), true);
           ("homeassistant/sensor/" ++ sensorName ++ "/" ++ key s ++ "/state",
            state, true) ]) /\
    let props := props_of (configPayload sensorName s) in
    configPayload sensorName s = JObj props /\
    map fst props =
      (["name"; "state_topic"; "unique_id"; "device"]
         ++ match present (device_class s) with Some _ => ["device_class"] | None => [] end
         ++ match present (unit s) with Some _ => ["unit_of_measurement"] | None => [] end)%list /\
    lookup "name" props = Some (JStr ("Weather " ++ sensorName ++ " " ++ name s)) /\
    lookup "state_topic" props =
      Some (JStr ("homeassistant/sensor/" ++ sensorName ++ "/" ++ key s ++ "/state")) /\
    lookup "unique_id" props = Some (JStr (sensorName ++ "_" ++ key s)) /\
    lookup "device" props = Some (device sensorName) /\
    lookup "device_class" props = option_map JStr (present (device_class s)) /\
    lookup "unit_of_measurement" props = option_map JStr (present (unit s)).
Proof.
  split; [apply publishToMqtt_publishes|]. split; [apply reached_prefix|].
  split; [|split].
  - intros Hp. split; [now rewrite publishToMqtt_thrown, Hp|].
    unfold publishable in Hp. apply andb_true_iff in Hp. now apply reached_all.
  - rewrite published_keys. apply NoDup_filter, NoDup_schema.
  - intros s Hs. split.
    + intros state Es. unfold messages. now rewrite Es.
    + unfold configPayload, optional. cbn [props_of].
      rewrite stateTopic_eq. fold (state_topic sensorName (key s)).
      destruct (present (device_class s)), (present (unit s)); cbn; tauto.
Qed.

(** C8, as the code has it.  An entry pushed for a metric-group field always has a
    value.  The four entries of the array literal are built whatever the
    observation holds; the loop of line 193 skips every entry whose
    value is [null] or [undefined], so that each message sent belongs to
    an entry with a value: the messages of the loop are those of the
    entries with a value it gets to, which are all of them when [String]
    converts every value. *)
Theorem only_sensors_with_a_value_are_published (obs : jsval) :
  (forall s, In s (metric_sensors obs) -> nullish (value s) = false) /\
  map key (fixed_sensors obs) = fixed_keys /\
  (forall s, In s (sensors obs) -> nullish (value s) = true ->
             publish_sensor sensorName s = ([], None)) /\
  (forall s, In s (published obs) -> nullish (value s) = false) /\
  publishes (fst (publish_loop sensorName (sensors obs)))
  = flat_map (messages sensorName) (reached (published obs)) /\
  (forall s, In s (reached (published obs)) -> In s (published obs)) /\
  (forallb (fun s => convertible (value s)) (published obs) = true ->
   publishes (fst (publish_loop sensorName (sensors obs)))
   = flat_map (messages sensorName) (published obs)).
Proof.
  repeat split.
  - intros s. unfold metric_sensors.
    destruct (truthy (get obs "metric") && typeof_object (get obs "metric"));
      [|intros []].
    intros Hs. apply in_flat_map in Hs. destruct Hs as ([k m] & _ & Hs).
    unfold metric_sensor in Hs.
    destruct (nullish (get (get obs "metric") k)) eqn:E; cbn in Hs; [destruct Hs|].
    destruct Hs as [<- | []]. exact E.
  - intros s _ Hn. unfold publish_sensor. now rewrite Hn.
  - intros s Hs. apply filter_In in Hs. now apply negb_true_iff.
  - apply publishes_publish_loop.
  - apply reached_incl.
  - intros Hall. rewrite publishes_publish_loop. fold (published obs).
    now rewrite reached_all.
Qed.
End Publisher.

(** C5.  The entries of [sensors], and those of them that are published,
    come in the order of the schema: observation time, solar radiation,
    wind direction, humidity, then the entries of [metricMap]; which keys
    appear depends on the readings only.  Two observations with the same
    readings give the same array. *)
Theorem sensors_in_schema_order (obs : jsval) :
  schema = ["obsTimeUtc"; "solarRadiation"; "winddir"; "humidity";
            "temp"; "heatIndex"; "dewpt"; "windChill"; "windSpeed"; "windGust";
            "pressure"; "precipRate"; "precipTotal"; "elev"] /\
  map key (sensors obs) = filter (constructed obs) schema /\
  map key (published obs) = filter (fun k => negb (nullish (reading obs k))) schema /\
  forall obs',
    (forall k, In k schema -> reading obs' k = reading obs k) ->
    sensors obs' = sensors obs.
Proof.
  split; [reflexivity|]. split; [apply sensors_keys|]. split; [apply published_keys|].
  intros obs' E.
  pose proof (@sensors_ext (fun _ => false) obs obs' (fun k Hin _ => E k Hin)) as Hs.
  cbn [negb] in Hs. now rewrite !filter_id in Hs by reflexivity.
Qed.
End Mapper.

(** ** More on the cycle: waits, messages, exits *)

Section CycleMore.
Context `{Network}.
Variable cfg : config.

(** One turn makes one call, waits for nothing and exits nowhere. *)
Lemma attempt_once_counts (s : string) (a : Z) (w : world) :
  let '(evs, _, _) := attempt_once cfg s a w in
  List.length (calls evs) = 1%nat /\ waits evs = [] /\ exits evs = [] /\
  exists result tail, evs = fetchWeather_call s result :: tail.
Proof.
  destruct (attempt_once_shape cfg s a w) as (rest & E & Hr).
  destruct (attempt_once cfg s a w) as [[evs b] w1]. cbn [fst] in E. subst evs.
  apply quiet_turn in Hr. destruct Hr as (Hc & _ & Hw & He).
  cbn [calls waits exits flat_map app]. fold (calls rest) (waits rest) (exits rest).
  rewrite Hc, Hw, He. repeat split. now eexists _, rest.
Qed.

Lemma paced_app (evs evs' : list event) (returned : bool) :
  paced evs false -> paced evs' returned -> paced (evs ++ evs') returned.
Proof.
  intros (Hf & Hl & Hx) (Hf' & Hl' & Hx'). unfold paced.
  rewrite calls_app, waits_app, exits_app, !length_app, Hl, Hl', Hx, Hx'.
  repeat split; [apply Forall_app; now split | lia].
Qed.

Lemma retry_paced (s : string) (n : nat) : forall (a : Z) (w : world),
  turns_left a (retries cfg) = n ->
  let '(evs, returned, _) := retry cfg s a w in paced evs returned.
Proof.
  induction n as [|n IH]; intros a w Hn; rewrite retry_step.
  - apply lt_int_false in Hn. rewrite Hn. repeat split. constructor.
  - apply lt_int_true in Hn. destruct Hn as [Hlt Hn]. rewrite Hlt.
    pose proof (attempt_once_counts s a w) as Hone.
    destruct (attempt_once cfg s a w) as [[evs [|]] w1];
      destruct Hone as (Hc & Hw & He & _).
    + unfold paced. rewrite Hc, Hw. repeat split; [constructor | exact He].
    + specialize (IH (a + 1) w1 Hn).
      destruct (retry cfg s (a + 1) w1) as [[evs' returned] w2].
      change (evs ++ setTimeout 2000 :: evs')%list
        with (evs ++ [setTimeout 2000] ++ evs')%list.
      rewrite app_assoc. apply paced_app; [|exact IH]. unfold paced.
      rewrite calls_app, waits_app, exits_app, length_app, Hc, Hw, He.
      repeat split. repeat constructor.
Qed.

Lemma stations_loop_paced (ids : list string) : forall (w : world),
  let '(evs, returned, _) := stations_loop cfg ids w in paced evs returned.
Proof.
  induction ids as [|s rest IH]; intros w; cbn [stations_loop].
  - repeat split. constructor.
  - pose proof (@retry_paced s _ 0 w eq_refl) as Hr.
    destruct (retry cfg s 0 w) as [[evs [|]] w1]; [exact Hr|].
    specialize (IH w1). destruct (stations_loop cfg rest w1) as [[evs' returned] w2].
    apply paced_app; [exact Hr|].
    change (console_log (ExhaustedRetries s) :: evs')
      with ([console_log (ExhaustedRetries s)] ++ evs')%list.
    apply paced_app; [|exact IH]. repeat split. constructor.
Qed.

Lemma length_schedule (ids : list string) :
  List.length (schedule cfg ids) = (List.length ids * budget (retries cfg))%nat.
Proof.
  unfold schedule. induction ids as [|s rest IH]; [reflexivity|].
  cbn [flat_map List.length]. rewrite length_app, repeat_length, IH. lia.
Qed.

(** A cycle waits two seconds after every call that did not succeed, also
    after the last call to a station and after the last station: a cycle
    that returns has made one call more than it has waited, and a cycle that
    fails has waited once per station and turn before it exits. *)
Theorem cycle_waits_after_every_failed_call (w : world) :
  let '(evs, c, _) := fetchAndPublish cfg w in
  Forall (fun ms => ms = 2000) (waits evs) /\
  match c with
  | Returned _ => List.length (calls evs) = S (List.length (waits evs))
  | Exited _ =>
      List.length (calls evs) = List.length (waits evs) /\
      List.length (waits evs)
      = (List.length (stationIds cfg) * budget (retries cfg))%nat
  end.
Proof.
  unfold fetchAndPublish.
  pose proof (stations_loop_paced (stationIds cfg) w) as Hp.
  pose proof (stations_loop_cases cfg (stationIds cfg) w) as Hl.
  destruct (stations_loop cfg (stationIds cfg) w) as [[evs [|]] w1];
    destruct Hp as (Hf & Hn & _).
  - split; [exact Hf | lia].
  - destruct Hl as (Hs & _).
    rewrite waits_app, calls_app. cbn [waits calls flat_map app]. rewrite !app_nil_r.
    split; [exact Hf|]. split; [lia|].
    rewrite <- length_schedule, <- Hs, length_map. lia.
Qed.

(** What a cycle sends to the broker is decided by the answers to its
    calls.  For each call answered with a response whose observation list
    is not empty, and in the order of the calls, [publishToMqtt] is called
    on the first observation, and sends the messages of its entries with a
    value, up to the config message of the first entry whose value [String]
    does not convert; it sends nothing when that observation is [null] or
    [undefined].  The other calls lead to no message. *)
Theorem cycle_sends_what_its_calls_fetched (w : world) :
  let '(evs, _, _) := fetchAndPublish cfg w in
  entered evs
  = flat_map (fun call => match fetched (snd call) with
                          | Some obs => [obs]
                          | None => []
                          end) (calls evs) /\
  publishes evs
  = flat_map (fun call =>
                match fetched (snd call) with
                | Some obs =>
                    if nullish obs then []
                    else flat_map (messages (SENSOR_NAME cfg)) (reached (published obs))
                | None => []
                end) (calls evs).
Proof.
  pose proof (fetchAndPublish_by_calls cfg w) as [He Hp].
  destruct (fetchAndPublish cfg w) as [[evs c] w1]. cbn [fst] in *.
  split; [exact He|]. rewrite Hp. apply flat_map_ext. intros call. unfold sent.
  destruct (fetched (snd call)) as [obs|]; [|reflexivity].
  apply publishToMqtt_publishes.
Qed.
End CycleMore.

(** ** More on the scheduler: exits, fatal events, the timer *)

Section SchedulerMore.
Context `{Network}.

Lemma serve_fatal (cfg : config) (l : lifecycle) (post : list lifecycle)
      (pre : list lifecycle) : forall (w : world) (evs : list event) (w1 : world),
  serve cfg pre w = (evs, Running, w1) ->
  l <> connect ->
  serve cfg (pre ++ l :: post) w
  = ((evs ++ [console_error (fatal_text l); process_exit (fatal_code l)])%list,
     Stopped (fatal_code l), w1).
Proof.
  induction pre as [|a pre IH]; intros w evs w1 Hs Hl.
  - cbn [serve] in Hs. assert (evs = [] /\ w1 = w) as [-> ->] by (split; congruence).
    destruct l; [contradiction | reflexivity | reflexivity | reflexivity].
  - cbn [serve app] in *.
    destruct (on cfg a w) as [[evs0 [|code]] w0]; [|discriminate].
    destruct (serve cfg pre w0) as [[evs' st] w2] eqn:E.
    assert (st = Running /\ evs = (evs0 ++ evs')%list /\ w2 = w1) as (-> & -> & ->)
        by (repeat split; congruence).
    rewrite IH with (evs := evs') (w1 := w1) by assumption. now rewrite <- app_assoc.
Qed.

(** Whenever the broker client reports [close], [offline] or [error] to a
    running process, the process writes the handler's text and exits, with
    code 5 for [close] and [offline] and code 6 for [error]; nothing is
    fetched or published any more, and the events after it are not
    handled. *)
Theorem broker_trouble_is_fatal (env : Env.t) (pre : list lifecycle)
        (l : lifecycle) (post : list lifecycle) (w : world)
        (evs : list event) (w1 : world) :
  main env pre w = (evs, Running, w1) ->
  l <> connect ->
  main env (pre ++ l :: post) w
  = ((evs ++ [console_error (fatal_text l); process_exit (fatal_code l)])%list,
     Stopped (fatal_code l), w1).
Proof.
  unfold main. destruct (startup env) as [evs0 [code|cfg]]; [discriminate|].
  destruct (serve cfg pre w) as [[evs' st] w2] eqn:E. intros Hm Hl.
  assert (st = Running /\ evs = (evs0 ++ evs')%list /\ w2 = w1) as (-> & -> & ->)
      by (repeat split; congruence).
  rewrite serve_fatal with (evs := evs') (w1 := w1) by assumption. now rewrite <- app_assoc.
Qed.

(** A cycle with a turn to make starts with a call to the first station. *)
Lemma fetchAndPublish_first_call (cfg : config) (w : world) (s : string)
      (rest : list string) :
  stationIds cfg = s :: rest ->
  (0 < budget (retries cfg))%nat ->
  exists result tail,
    fst (fst (fetchAndPublish cfg w)) = fetchWeather_call s result :: tail.
Proof.
  intros Hs Hb. unfold fetchAndPublish. rewrite Hs. cbn [stations_loop].
  rewrite retry_step.
  destruct (budget (retries cfg)) as [|n] eqn:En; [lia|].
  apply lt_int_true in En. destruct En as [-> _].
  pose proof (attempt_once_counts cfg s 0 w) as Hone.
  destruct (attempt_once cfg s 0 w) as [[evs [|]] w1];
    destruct Hone as (_ & _ & _ & result & tail & ->).
  - now exists result, tail.
  - destruct (retry cfg s (0 + 1) w1) as [[evs' [|]] w2].
    + now exists result, (tail ++ setTimeout 2000 :: evs')%list.
    + destruct (stations_loop cfg rest w2) as [[evs'' [|]] w3]; cbn [fst];
        rewrite <- ?app_assoc; cbn [app]; eexists; eexists; reflexivity.
Qed.

(** With a valid interval, a station and a turn to make, the connect
    handler starts the cycle and arms the timer once, right after the call to
    the first station has been issued and before anything else of the cycle
    happens. *)
Theorem timer_armed_after_first_call (cfg : config) (w : world) (s : string)
        (rest : list string) (ms : Q) :
  EXEC_EVERY cfg <> "" ->
  parseDuration (EXEC_EVERY cfg) = Some ms ->
  ~ (ms < 1)%Q ->
  stationIds cfg = s :: rest ->
  (0 < budget (retries cfg))%nat ->
  exists result tail,
    fst (fst (on_connect cfg w))
    = console_log Connected :: fetchWeather_call s result :: setInterval ms :: tail /\
    timers (fst (fst (on_connect cfg w))) = [ms].
Proof.
  intros He Hp Hms Hs Hb. unfold on_connect.
  apply String.eqb_neq in He. rewrite He, Hp. cbn [negb].
  destruct (below_one ms) eqn:Eb; [apply below_one_iff in Eb; contradiction|].
  destruct (@fetchAndPublish_first_call cfg w s rest Hs Hb) as (result & tail & Hf).
  pose proof (timers_fetchAndPublish cfg w) as Ht.
  destruct (fetchAndPublish cfg w) as [[evs c] w1]. cbn [fst] in *. subst evs.
  exists result, tail. cbn [armed_after_first_call]. split; [reflexivity|].
  cbn [timers flat_map app] in *. now rewrite Ht.
Qed.
End SchedulerMore.

(** ** More on start-up: the name test and the station list *)

Lemma nonempty_length (s : string) : (0 <? Z.of_nat (String.length s)) = negb (String.eqb s "").
Proof. destruct s; reflexivity. Qed.

(** [isValidMqttTopic] accepts exactly the non-empty strings without [+],
    [#] and NUL; anything that is not a string is refused. *)
Theorem isValidMqttTopic_iff (str : option string) :
  isValidMqttTopic str = true <->
  exists s, str = Some s /\ s <> "" /\
            forall c, In c (list_ascii_of_string s) ->
                      c <> "+"%char /\ c <> "#"%char /\ c <> "000"%char.
Proof.
  destruct str as [s|]; cbn [isValidMqttTopic].
  - rewrite nonempty_length, andb_true_iff, !negb_true_iff. split.
    + intros [Hne Hr]. exists s. split; [reflexivity|].
      split; [now apply String.eqb_neq|].
      intros c Hc. repeat split; intros ->;
        (assert (test_reserved s = true) as Ht
            by (apply test_reserved_iff; eexists; split; [exact Hc | tauto]));
        congruence.
    + intros (s' & [= <-] & Hne & Hall). split; [now apply String.eqb_neq|].
      destruct (test_reserved s) eqn:E; [|reflexivity].
      apply test_reserved_iff in E. destruct E as (c & Hc & Hbad).
      destruct (Hall c Hc) as (H1 & H2 & H3). tauto.
  - split; [discriminate | intros (s & [=] & _)].
Qed.


Lemma split_commas_cons (s : string) :
  exists first others, split_commas s = first :: others.
Proof.
  induction s as [|c s (first & others & IH)]; cbn [split_commas].
  - now exists "", [].
  - destruct (Ascii.eqb c ","%char).
    + now exists "", (split_commas s).
    + rewrite IH. now exists (String c first), others.
Qed.

Lemma length_split_commas (s : string) :
  List.length (split_commas s) = S (commas s).
Proof.
  induction s as [|c s IH]; [reflexivity|]. cbn [split_commas commas].
  destruct (split_commas_cons s) as (first & others & E).
  destruct (Ascii.eqb c ","%char); [cbn; now rewrite IH|].
  rewrite E in *. cbn in *. exact IH.
Qed.

(** [split(',')] cuts a string at its commas and nowhere else: there is one
    piece more than there are commas (so never no piece at all, an empty
    string giving one empty piece), no piece holds a comma, and the pieces
    joined by commas are the string again. *)
Theorem split_commas_pieces (s : string) :
  List.length (split_commas s) = S (commas s) /\
  Forall (fun piece => commas piece = 0%nat) (split_commas s) /\
  String.concat "," (split_commas s) = s.
Proof.
  split; [apply length_split_commas|].
  induction s as [|c s [IHf IHc]]; [split; [repeat constructor | reflexivity]|].
  cbn [split_commas]. destruct (split_commas_cons s) as (first & others & E).
  destruct (Ascii.eqb c ","%char) eqn:Ec.
  - apply Ascii.eqb_eq in Ec. subst c. split; [constructor; [reflexivity | exact IHf]|].
    rewrite E in *.
    change (String.concat "," ("" :: first :: others))
      with ("" ++ "," ++ String.concat "," (first :: others)).
    now rewrite IHc.
  - rewrite E in *. split.
    + inversion IHf as [|? ? Hp Ho]; subst. constructor; [|exact Ho].
      cbn [commas]. now rewrite Ec.
    + destruct others as [|o os].
      * cbn [String.concat] in *. now rewrite IHc.
      * change (String.concat "," (String c first :: o :: os))
          with (String c (String.concat "," (first :: o :: os))).
        now rewrite IHc.
Qed.

(** The station list has one entry for each comma of [STATION_ID] and one
    more: empty pieces are kept as stations, and the list is never empty. *)
Theorem one_station_per_piece `{Host} (env : Env.t) :
  List.length (stationIds (config_of env))
  = S (commas (or_default (Env.STATION_ID env) "")).
Proof. cbn [config_of stationIds]. now rewrite length_map, length_split_commas. Qed.

(** ** More on the mapper and the publisher *)

Section MapperMore.
Context `{Host}.

Lemma sensor_of_table (obs : jsval) (s : sensor) :
  In s (sensors obs) ->
  exists k m always, In (k, m, always) table /\ s = entry k m (reading obs k).
Proof.
  rewrite sensors_by_table. intros Hs. apply in_flat_map in Hs.
  destruct Hs as ([[k m] always] & Hr & Hs). unfold row in Hs.
  destruct (always || negb (nullish (reading obs k))); [|destruct Hs].
  destruct Hs as [<- | []]. now exists k, m, always.
Qed.

Lemma metric_guard_of_reading (obs : jsval) (k : string) :
  existsb (String.eqb k) fixed_keys = false ->
  nullish (reading obs k) = false ->
  reading obs k = get (get obs "metric") k.
Proof.
  intros Hk. unfold reading. rewrite Hk.
  destruct (truthy (get obs "metric") && typeof_object (get obs "metric"));
    [reflexivity | discriminate].
Qed.

(** A published sensor is a row of the schema filled in with the value read
    under its own key: on the observation for the four fixed keys, on
    [obs.metric] for the others.  Name, device class and unit are those of
    the row, and the value is neither [null] nor [undefined]. *)
Theorem published_sensor_is_its_row (obs : jsval) (s : sensor) :
  In s (published obs) ->
  exists m always,
    In (key s, m, always) table /\
    name s = meta_name m /\
    device_class s = meta_device_class m /\
    unit s = meta_unit m /\
    value s = (if existsb (String.eqb (key s)) fixed_keys
               then get obs (key s)
               else get (get obs "metric") (key s)) /\
    nullish (value s) = false.
Proof.
  intros Hs. apply filter_In in Hs. destruct Hs as [Hs Hv].
  apply negb_true_iff in Hv.
  destruct (sensor_of_table Hs) as (k & m & always & Hr & ->).
  cbn [entry key name device_class unit value] in *.
  exists m, always. repeat split; [exact Hr | | exact Hv].
  destruct (existsb (String.eqb k) fixed_keys) eqn:Ek.
  - unfold reading. now rewrite Ek.
  - now apply metric_guard_of_reading.
Qed.

(** In the config payload of any entry of [sensors], a unit is given for
    every key but the observation time, and a device class for humidity,
    the four temperatures, the two wind speeds and the pressure only. *)
Theorem units_and_device_classes (sensorName : string) (obs : jsval) (s : sensor) :
  In s (sensors obs) ->
  let props := props_of (configPayload sensorName s) in
  (lookup "unit_of_measurement" props = None <-> key s = "obsTimeUtc") /\
  (lookup "device_class" props = None <->
   In (key s) ["obsTimeUtc"; "solarRadiation"; "winddir";
               "precipRate"; "precipTotal"; "elev"]).
Proof.
  intros Hs. destruct (sensor_of_table Hs) as (k & m & always & Hr & ->).
  unfold table, metricMap in Hr. cbn [map app In] in Hr.
  repeat (destruct Hr as [Hr | Hr];
          [injection Hr as <- <- <-; cbn; intuition discriminate |]).
  destruct Hr.
Qed.

Lemma reached_cases (l : list sensor) :
  (forall x, In x l -> ToString (value x) <> None) \/
  exists before s after,
    l = (before ++ s :: after)%list /\
    (forall x, In x before -> ToString (value x) <> None) /\
    ToString (value s) = None /\
    reached l = (before ++ [s])%list.
Proof.
  induction l as [|x l IH]; [left; intros x []|].
  cbn [reached]. unfold convertible. destruct (ToString (value x)) as [state|] eqn:Ex.
  - destruct IH as [Hall | (before & s & after & -> & Hb & Hs & ->)].
    { left. intros y [<- | Hy]; [congruence | now apply Hall]. }
    right. exists (x :: before), s, after. repeat split; try assumption.
    intros y [<- | Hy]; [congruence | now apply Hb].
  - right. exists [], x, l. repeat split; try assumption. intros y [].
Qed.

(** [publishToMqtt] throws a TypeError, and nothing else.  It returns
    exactly when the observation is neither [null] nor [undefined] and
    [String] converts the value of every entry to publish.  It throws
    before anything is sent when the observation is [null] or [undefined];
    otherwise it throws at the first entry whose value [String] does not
    convert, after the messages of the entries before it and the config
    message of that entry. *)
Theorem publishToMqtt_throws_at_first_unconvertible (sensorName : string) (obs : jsval) :
  (forall e, snd (publishToMqtt sensorName obs) = Some e -> e = TypeError) /\
  (snd (publishToMqtt sensorName obs) = None <->
   nullish obs = false /\
   forall s, In s (published obs) -> ToString (value s) <> None) /\
  (nullish obs = true -> fst (publishToMqtt sensorName obs) = []) /\
  (nullish obs = false ->
   snd (publishToMqtt sensorName obs) <> None ->
   exists before s after,
     published obs = (before ++ s :: after)%list /\
     (forall x, In x before -> ToString (value x) <> None) /\
     ToString (value s) = None /\
     publishes (fst (publishToMqtt sensorName obs))
     = (flat_map (messages sensorName) before
          ++ [(config_topic sensorName (key s),
               JSON_stringify (configPayload sensorName s), true)])%list).
Proof.
  assert (Hiff : publishable obs = true <->
                 nullish obs = false /\
                 forall s, In s (published obs) -> ToString (value s) <> None).
  { unfold publishable. rewrite andb_true_iff, negb_true_iff, forallb_forall.
    split; intros [Hn Hall]; (split; [exact Hn|]); intros s Hs; specialize (Hall s Hs);
      unfold convertible in *; destruct (ToString (value s)); congruence. }
  pose proof (publishToMqtt_thrown sensorName obs) as Ht.
  repeat split.
  - intros e He. rewrite He in Ht. destruct (publishable obs); congruence.
  - apply Hiff. destruct (publishable obs); [reflexivity | congruence].
  - apply Hiff. destruct (publishable obs); [reflexivity | congruence].
  - intros Hq. apply Hiff in Hq. now rewrite Ht, Hq.
  - intros Hn. unfold publishToMqtt. now rewrite Hn.
  - intros Hn Hthrown. rewrite publishToMqtt_publishes, Hn.
    destruct (reached_cases (published obs))
      as [Hall | (before & s & after & Hl & Hb & Hs & Hr)].
    + exfalso. apply Hthrown. rewrite Ht.
      replace (publishable obs) with true; [reflexivity|]. symmetry.
      apply Hiff. now split.
    + exists before, s, after. repeat split; try assumption.
      rewrite Hr, flat_map_app. cbn [flat_map]. unfold messages at 2.
      now rewrite Hs, app_nil_r.
Qed.

(** Metric sensors come from an object only: when [obs.metric] is absent,
    [null], a number, a string, a boolean or an array, no metric sensor is
    built and [sensors] is the four fixed entries. *)
Theorem no_metric_object_no_metric_sensors (obs : jsval) :
  (forall props, get obs "metric" <> Obj props) ->
  metric_sensors obs = [] /\ map key (sensors obs) = fixed_keys.
Proof.
  intros Ho. assert (Hm : metric_sensors obs = []).
  { unfold metric_sensors. destruct (get obs "metric") as [| |b|n|s|items|props].
    - reflexivity.
    - reflexivity.
    - now rewrite andb_false_r.
    - now rewrite andb_false_r.
    - now rewrite andb_false_r.
    - reflexivity.
    - now destruct (Ho props). }
  split; [exact Hm|]. unfold sensors. now rewrite Hm.
Qed.

Lemma NoDup_topics_of_keys (sensorName : string) (ks : list string) :
  NoDup ks ->
  NoDup (flat_map (fun k => [config_topic sensorName k; state_topic sensorName k]) ks).
Proof.
  induction 1 as [|k ks Hk Hnd IH]; [constructor|]. cbn [flat_map app].
  assert (Hin : forall k' t,
             In t (flat_map (fun k => [config_topic sensorName k;
                                       state_topic sensorName k]) ks) ->
             (t = config_topic sensorName k' \/ t = state_topic sensorName k') ->
             In k' ks).
  { intros k' t Ht Heq. apply in_flat_map in Ht. destruct Ht as (k0 & Hk0 & Ht).
    destruct Ht as [<- | [<- | []]]; destruct Heq as [E | E].
    - apply config_topic_inj in E. now subst.
    - now apply config_topic_not_state in E.
    - symmetry in E. now apply config_topic_not_state in E.
    - apply state_topic_inj in E. now subst. }
  constructor; [|constructor; [|exact IH]].
  - intros [E | Ht]; [symmetry in E; now apply config_topic_not_state in E|].
    apply Hk. apply (Hin k _ Ht). now left.
  - intros Ht. apply Hk. apply (Hin k _ Ht). now right.
Qed.

(** The topics of the messages of entries with pairwise different keys. *)
Lemma NoDup_message_topics (sensorName : string) (l : list sensor) :
  NoDup (map key l) ->
  NoDup (map (fun m => fst (fst m)) (flat_map (messages sensorName) l)).
Proof.
  induction l as [|s l IH]; [constructor|].
  cbn [map flat_map]. intros Hnd. apply NoDup_cons_iff in Hnd. destruct Hnd as [Hk Hnd].
  rewrite map_app. apply NoDup_app; [| now apply IH |].
  - unfold messages. destruct (ToString (value s)); cbn [map fst].
    + constructor; [|constructor; [intros [] | constructor]].
      intros [E | []]. symmetry in E. now apply config_topic_not_state in E.
    + constructor; [intros [] | constructor].
  - intros t Ht Ht'. apply Hk.
    apply in_map_iff in Ht. destruct Ht as (m & <- & Hm).
    apply in_map_iff in Ht'. destruct Ht' as (m' & E & Hm').
    apply in_flat_map in Hm'. destruct Hm' as (s' & Hs' & Hm').
    apply messages_topic in Hm. apply messages_topic in Hm'.
    replace (key s) with (key s'); [now apply in_map|].
    destruct Hm as [Hm | Hm], Hm' as [Hm' | Hm']; rewrite Hm, Hm' in E.
    + now apply config_topic_inj in E.
    + symmetry in E. now apply config_topic_not_state in E.
    + now apply config_topic_not_state in E.
    + now apply state_topic_inj in E.
Qed.

(** Within one call of [publishToMqtt] no topic is written twice: the
    config and state topics of the published sensors are pairwise
    different, whatever the sensor-set name. *)
Theorem topics_are_pairwise_different (sensorName : string) (obs : jsval) :
  NoDup (topics (fst (publishToMqtt sensorName obs))).
Proof.
  unfold topics. rewrite publishToMqtt_publishes.
  destruct (nullish obs); [constructor|].
  apply NoDup_message_topics.
  destruct (reached_prefix (published obs)) as [rest E].
  pose proof (published_keys obs) as Hk. rewrite E, map_app in Hk.
  apply NoDup_app_remove_r with (l' := map key rest). rewrite Hk.
  apply NoDup_filter, NoDup_schema.
Qed.
End MapperMore.

(** ** Exit codes and error lines *)

Section CodesAndErrors.
Context `{Network}.

(** Start-up by cases: the emptiness test of [isValidMqttTopic] never
    decides, an empty name being a missing one. *)
Lemma startup_outcomes (env : Env.t) :
  let some_missing :=
    missing (Env.SENSOR_NAME env) || missing (Env.API_KEY env)
    || missing (Env.STATION_ID env) || missing (Env.MQTT_HOST env)
    || missing (Env.MQTT_PORT env) in
  let reserved_name :=
    test_reserved (or_default (Env.SENSOR_NAME env) "") in
  startup env =
  if some_missing then ([console_error MissingEnv; process_exit 2], Refused 2)
  else if reserved_name then ([console_error InvalidSensorName; process_exit 4], Refused 4)
  else ([mqtt_connect (options_of env)], Ready (config_of env)).
Proof.
  unfold startup.
  destruct (Env.SENSOR_NAME env) as [name|]; [|reflexivity].
  cbn [missing isValidMqttTopic or_default]. rewrite nonempty_length.
  destruct (String.eqb name ""); [reflexivity|]. cbn [orb negb andb].
  destruct (missing (Env.API_KEY env) || missing (Env.STATION_ID env)
            || missing (Env.MQTT_HOST env) || missing (Env.MQTT_PORT env));
    [reflexivity|].
  now destruct (test_reserved name).
Qed.

(** Start-up ends with exit code 4 exactly when every required variable is
    set and not empty and the sensor-set name holds [+], [#] or NUL; a missing
    variable takes precedence, and an empty name is a missing one. *)
Theorem exit_4_iff_reserved_character (env : Env.t) :
  snd (startup env) = Refused 4 <->
  (missing (Env.SENSOR_NAME env) = false /\ missing (Env.API_KEY env) = false /\
   missing (Env.STATION_ID env) = false /\ missing (Env.MQTT_HOST env) = false /\
   missing (Env.MQTT_PORT env) = false) /\
  exists name c,
    Env.SENSOR_NAME env = Some name /\ In c (list_ascii_of_string name) /\
    (c = "+"%char \/ c = "#"%char \/ c = "000"%char).
Proof.
  rewrite startup_outcomes. cbv zeta.
  destruct (missing (Env.SENSOR_NAME env)) eqn:E1; cbn [orb].
  { split; [discriminate | intros [(Hm & _) _]; discriminate]. }
  destruct (missing (Env.API_KEY env)); cbn [orb].
  { split; [discriminate | intros [(_ & Hm & _) _]; discriminate]. }
  destruct (missing (Env.STATION_ID env)); cbn [orb].
  { split; [discriminate | intros [(_ & _ & Hm & _) _]; discriminate]. }
  destruct (missing (Env.MQTT_HOST env)); cbn [orb].
  { split; [discriminate | intros [(_ & _ & _ & Hm & _) _]; discriminate]. }
  destruct (missing (Env.MQTT_PORT env)); cbn [orb].
  { split; [discriminate | intros [(_ & _ & _ & _ & Hm) _]; discriminate]. }
  destruct (Env.SENSOR_NAME env) as [name|]; [|discriminate]. cbn [or_default].
  destruct (test_reserved name) eqn:Et; cbn [snd].
  - split; [intros _ | reflexivity]. split; [tauto|].
    apply test_reserved_iff in Et. destruct Et as (c & Hc & Hbad). now exists name, c.
  - split; [discriminate|]. intros [_ (name' & c & [= <-] & Hc & Hbad)].
    assert (test_reserved name = true) by (apply test_reserved_iff; now exists c).
    congruence.
Qed.

Lemma on_connect_codes (cfg : config) (w : world) (code : Z) :
  snd (fst (on_connect cfg w)) = Stopped code -> code = 3 \/ code = 7.
Proof.
  unfold on_connect. pose proof (fetchAndPublish_completion cfg w) as Hc.
  destruct (negb (String.eqb (EXEC_EVERY cfg) "")).
  - destruct (parseDuration (EXEC_EVERY cfg)) as [ms|]; [|intros [= <-]; tauto].
    destruct (below_one ms); [intros [= <-]; tauto|].
    destruct (fetchAndPublish cfg w) as [[evs c] w1]. cbn [fst snd] in *.
    destruct Hc as [-> | ->]; cbn [status_of]; [discriminate | intros [= <-]; tauto].
  - destruct (fetchAndPublish cfg w) as [[evs c] w1]. cbn [fst snd] in *.
    destruct Hc as [-> | ->]; cbn [fst snd]; [discriminate | intros [= <-]; tauto].
Qed.

Lemma serve_codes (cfg : config) (ls : list lifecycle) : forall (w : world) (code : Z),
  snd (fst (serve cfg ls w)) = Stopped code ->
  code = 3 \/ code = 5 \/ code = 6 \/ code = 7.
Proof.
  induction ls as [|l ls IH]; intros w code; cbn [serve]; [discriminate|].
  assert (Ho : forall c, snd (fst (on cfg l w)) = Stopped c ->
                         c = 3 \/ c = 5 \/ c = 6 \/ c = 7).
  { destruct l; cbn [on fst snd]; intros c.
    - intros Hc. apply on_connect_codes in Hc. tauto.
    - intros [= <-]. tauto.
    - intros [= <-]. tauto.
    - intros [= <-]. tauto. }
  destruct (on cfg l w) as [[evs [|c]] w1]; cbn [fst snd] in *.
  - specialize (IH w1 code). destruct (serve cfg ls w1) as [[evs' st] w2]. exact IH.
  - intros [= <-]. now apply Ho.
Qed.

(** The process only ever exits with one of the six codes 2 to 7. *)
Theorem exit_code_between_2_and_7 (env : Env.t) (ls : list lifecycle) (w : world)
        (code : Z) :
  snd (fst (main env ls w)) = Stopped code -> In code [2; 3; 4; 5; 6; 7].
Proof.
  unfold main. rewrite startup_outcomes. cbv zeta.
  destruct (missing (Env.SENSOR_NAME env) || missing (Env.API_KEY env)
            || missing (Env.STATION_ID env) || missing (Env.MQTT_HOST env)
            || missing (Env.MQTT_PORT env)); [intros [= <-]; cbn; tauto|].
  destruct (test_reserved (or_default (Env.SENSOR_NAME env) ""));
    [intros [= <-]; cbn; tauto|].
  pose proof (@serve_codes (config_of env) ls w code) as Hs.
  destruct (serve (config_of env) ls w) as [[evs st] w1]. cbn [fst snd] in *.
  intros E. destruct (Hs E) as [-> | [-> | [-> | ->]]]; cbn; tauto.
Qed.

Lemma attempt_once_errors (cfg : config) (s : string) (a : Z) (w : world) :
  Forall (fun p => p = (s, a + 1)) (fetch_errors (fst (fst (attempt_once cfg s a w)))).
Proof.
  rewrite attempt_once_eq. cbn [fst]. set (result := fst (fetchWeather cfg s w)).
  change (fetchWeather_call s result :: ?l) with ([fetchWeather_call s result] ++ l)%list.
  rewrite !fetch_errors_app, handle_events. cbn [fetch_errors flat_map app].
  apply Forall_app. split.
  - destruct (fetched result) as [obs|]; [|constructor].
    change (publishToMqtt_call obs :: ?l) with ([publishToMqtt_call obs] ++ l)%list.
    rewrite fetch_errors_app.
    destruct (publishToMqtt_quiet (SENSOR_NAME cfg) obs) as (_ & _ & _ & _ & _ & Hf).
    cbn zeta in Hf. rewrite Hf. constructor.
  - destruct (snd (handle cfg result)); repeat constructor.
Qed.

Lemma retry_errors (cfg : config) (s : string) (n : nat) : forall (a : Z) (w : world),
  turns_left a (retries cfg) = n ->
  Forall (fun p => fst p = s /\ a < snd p <= a + Z.of_nat n)
         (fetch_errors (fst (fst (retry cfg s a w)))).
Proof.
  induction n as [|n IH]; intros a w Hn; rewrite retry_step.
  - apply lt_int_false in Hn. rewrite Hn. constructor.
  - apply lt_int_true in Hn. destruct Hn as [Hlt Hn]. rewrite Hlt.
    pose proof (attempt_once_errors cfg s a w) as Hone.
    assert (Hone' : Forall (fun p => fst p = s /\ a < snd p <= a + Z.of_nat (S n))
                           (fetch_errors (fst (fst (attempt_once cfg s a w))))).
    { eapply Forall_impl; [|exact Hone]. intros p ->. cbn [fst snd]. split; [reflexivity | lia]. }
    destruct (attempt_once cfg s a w) as [[evs [|]] w1]; [exact Hone'|].
    specialize (IH (a + 1) w1 Hn).
    destruct (retry cfg s (a + 1) w1) as [[evs' r] w2]. cbn [fst] in *.
    change (evs ++ setTimeout 2000 :: evs')%list
      with (evs ++ [setTimeout 2000] ++ evs')%list.
    rewrite !fetch_errors_app. cbn [fetch_errors flat_map app].
    apply Forall_app. split; [exact Hone'|].
    eapply Forall_impl; [|exact IH]. intros p [Hs Hp]. split; [exact Hs | lia].
Qed.

(** Every line written on line 113 names a configured station and an attempt
    number between 1 and the retry budget. *)
Theorem fetch_errors_name_station_and_attempt (cfg : config) (w : world) :
  Forall (fun p => In (fst p) (stationIds cfg) /\
                   1 <= snd p <= Z.of_nat (budget (retries cfg)))
         (fetch_errors (fst (fst (fetchAndPublish cfg w)))).
Proof.
  unfold fetchAndPublish.
  assert (Hl : forall ids w,
             Forall (fun p => In (fst p) ids /\
                              1 <= snd p <= Z.of_nat (budget (retries cfg)))
                    (fetch_errors (fst (fst (stations_loop cfg ids w))))).
  { induction ids as [|s rest IH]; intros w0; cbn [stations_loop]; [constructor|].
    pose proof (@retry_errors cfg s _ 0 w0 eq_refl) as Hr.
    assert (Hr' : Forall (fun p => In (fst p) (s :: rest) /\
                                   1 <= snd p <= Z.of_nat (budget (retries cfg)))
                         (fetch_errors (fst (fst (retry cfg s 0 w0))))).
    { eapply Forall_impl; [|exact Hr]. intros p [Hs Hp]. split; [now left|].
      unfold budget. lia. }
    destruct (retry cfg s 0 w0) as [[evs [|]] w1]; [exact Hr'|].
    specialize (IH w1). destruct (stations_loop cfg rest w1) as [[evs' r] w2].
    cbn [fst] in *.
    change (evs ++ console_log (ExhaustedRetries s) :: evs')%list
      with (evs ++ [console_log (ExhaustedRetries s)] ++ evs')%list.
    rewrite !fetch_errors_app. cbn [fetch_errors flat_map app].
    apply Forall_app. split; [exact Hr'|].
    eapply Forall_impl; [|exact IH]. intros p [Hs Hp]. split; [now right | exact Hp]. }
  specialize (Hl (stationIds cfg) w).
  destruct (stations_loop cfg (stationIds cfg) w) as [[evs [|]] w1]; cbn [fst] in *.
  - exact Hl.
  - rewrite fetch_errors_app. cbn [fetch_errors flat_map app]. now rewrite app_nil_r.
Qed.
End CodesAndErrors.

(** * The model at work *)

#[local] Existing Instance Sample.host.
#[local] Existing Instance SampleNet.scripted.

Import SampleNet.

(** Stations A and B, two tries each; A fails twice, B answers at once:
    two calls to A, one to B, and the two sensors of the observation. *)
Example two_stations_second_answers :
  let '(evs, c, _) := fetchAndPublish cfg [refused; refused; reply humid] in
  map fst (calls evs) = ["A"; "A"; "B"] /\
  c = Returned true /\
  map (fun m => fst (fst m)) (publishes evs) =
    [ "homeassistant/sensor/garden/humidity/config";
      "homeassistant/sensor/garden/humidity/state";
      "homeassistant/sensor/garden/temp/config";
      "homeassistant/sensor/garden/temp/state" ].
Proof. vm_compute. repeat split. Qed.

Example humidity_config_payload :
  JSON_stringify (configPayload "garden" humidity_55)
  = String.concat (String dquote "")
      [ "{"; "name"; ":"; "Weather garden Humidity"; ","; "state_topic"; ":";
        "homeassistant/sensor/garden/humidity/state"; ","; "unique_id"; ":";
        "garden_humidity"; ","; "device"; ":{"; "identifiers"; ":[";
        "garden"; "],"; "name"; ":"; "Weather Station garden"; ",";
        "manufacturer"; ":"; "Weather.com"; "},"; "device_class"; ":";
        "humidity"; ","; "unit_of_measurement"; ":"; "%"; "}" ].
Proof. reflexivity. Qed.

(** [metric.pressure: null] next to a temperature: no pressure message, the
    temperature is published. *)
Example null_pressure_only_temp_published :
  map key (published no_pressure) = ["temp"].
Proof. reflexivity. Qed.

(** [String] on an object of the response: the inherited [toString], and
    the exception when the object brings a [toString] of its own, also
    inside an array. *)
Example String_samples :
  ToString (Obj [("valueOf", Num 1)]) = Some "[object Object]" /\
  ToString (Obj [("toString", Num 1)]) = None /\
  ToString (Arr [Str "a"; Null; Arr [Str "b"; Str "c"]]) = Some "a,,b,c" /\
  ToString (Arr [Str "a"; Obj [("toString", Null)]]) = None.
Proof. repeat split. Qed.

(** The humidity of [odd_humidity] makes [String] throw after the wind
    direction was published: the attempt is caught as an error, and the
    second answer is published. *)
Example publishing_throws_and_is_retried :
  let '(evs, c, _) := fetchAndPublish cfg [reply odd_humidity; reply humid] in
  c = Returned true /\
  fetch_errors evs = [("A", 1)] /\
  map (fun m => fst (fst m)) (publishes evs) =
    [ "homeassistant/sensor/garden/winddir/config";
      "homeassistant/sensor/garden/winddir/state";
      "homeassistant/sensor/garden/humidity/config";
      "homeassistant/sensor/garden/humidity/config";
      "homeassistant/sensor/garden/humidity/state";
      "homeassistant/sensor/garden/temp/config";
      "homeassistant/sensor/garden/temp/state" ].
Proof. vm_compute. repeat split. Qed.

Example parseInt_samples :
  Sample.parse_int "abc" = NaN /\ Sample.parse_int "0" = Int 0 /\
  Sample.parse_int "-3" = Int (-3) /\ Sample.parse_int "5" = Int 5.
Proof. repeat split. Qed.

(** ** Witnesses *)


(** C3 at the observation [humid]. *)
Lemma publish_config_then_state_witness :
  publishable humid = true /\
  snd (publishToMqtt "garden" humid) = None /\
  NoDup (map key (published humid)).
Proof.
  split; [reflexivity|].
  destruct (@publish_config_then_state Sample.host "garden" humid)
    as (_ & _ & Hp & Hk & _).
  split; [exact (proj1 (Hp eq_refl)) | exact Hk].
Defined.


(** C6 at the name [a+b]. *)
Lemma bad_sensor_name_rejected_at_startup_witness :
  main (with_name (Some "a+b") env) [connect] [reply humid]
  = ([console_error InvalidSensorName; process_exit 4], Stopped 4, [reply humid]).
Proof.
  apply (@bad_sensor_name_rejected_at_startup Sample.host scripted
           (with_name (Some "a+b") env) "a+b" [connect] [reply humid]);
    try reflexivity.
  right. exists "+"%char. split; [right; left; reflexivity | left; reflexivity].
Defined.

(** C7 with [EXEC_EVERY] set to the empty string, and not set. *)
Lemma one_shot_only_for_empty_EXEC_EVERY_witness :
  snd (startup (with_every (Some "") env)) = Ready (config_of (with_every (Some "") env)) /\
  Env.EXEC_EVERY (with_every (Some "") env) = Some "" /\
  timers (fst (fst (main (with_every (Some "") env) [connect] [reply humid]))) = [] /\
  snd (startup env) = Ready (config_of env) /\
  Env.EXEC_EVERY env = None /\
  EXEC_EVERY (config_of env) = "1m".
Proof.
  split; [reflexivity|]. split; [reflexivity|]. split.
  - pose proof (@one_shot_only_for_empty_EXEC_EVERY Sample.host scripted
                  (with_every (Some "") env) [reply humid] eq_refl) as Hw.
    destruct (@fetchAndPublish Sample.host scripted
                (config_of (with_every (Some "") env)) [reply humid])
      as [[cycle c] w1].
    destruct Hw as [Hw _]. destruct (Hw eq_refl) as (st & Hm & Ht & _).
    rewrite Hm. exact Ht.
  - split; [reflexivity|]. split; [reflexivity|].
    pose proof (@one_shot_only_for_empty_EXEC_EVERY Sample.host scripted
                  env [reply humid] eq_refl) as Hw.
    destruct (@fetchAndPublish Sample.host scripted (config_of env) [reply humid])
      as [[cycle c] w1].
    destruct Hw as [_ Hw]. exact (proj1 (Hw eq_refl)).
Defined.

(** C9 with [EXEC_EVERY] set to [abc]. *)
Lemma bad_EXEC_EVERY_exit_3_witness :
  snd (startup (with_every (Some "abc") env))
    = Ready (config_of (with_every (Some "abc") env)) /\
  parseDuration "abc" = None /\
  snd (fst (main (with_every (Some "abc") env) [connect] [reply humid])) = Stopped 3.
Proof.
  split; [reflexivity|]. split; [reflexivity|].
  rewrite (@bad_EXEC_EVERY_exit_3 Sample.host scripted (with_every (Some "abc") env)
             "abc" [] [reply humid] eq_refl eq_refl).
  - reflexivity.
  - discriminate.
  - left. reflexivity.
Defined.

(** C10 with [RETRIES] set to [abc]. *)
Lemma no_retry_budget_exit_7_without_fetch_witness :
  snd (startup (with_retries (Some "abc") env))
    = Ready (config_of (with_retries (Some "abc") env)) /\
  parseInt "abc" = NaN /\
  main (with_retries (Some "abc") env) [connect] [reply humid]
  = ([ mqtt_connect (options_of env); console_log Connected;
       console_log (ExhaustedRetries "A"); console_log (ExhaustedRetries "B");
       console_error FailedAllStations; process_exit 7 ], Stopped 7, [reply humid]).
Proof.
  split; [reflexivity|]. split; [reflexivity|].
  apply (@no_retry_budget_exit_7_without_fetch Sample.host scripted
           (with_retries (Some "abc") env) [] [reply humid] eq_refl).
  - left. reflexivity.
  - right. exists (inject_Z 60000). split; [reflexivity | discriminate].
Defined.

(** C5 at two observations that list the same fields in a different order. *)
Lemma sensors_in_schema_order_witness :
  let swapped : jsval := Obj [("metric", Obj [("temp", Num 18)]); ("humidity", Num 55)] in
  sensors swapped = sensors humid /\
  map key (published humid) = ["humidity"; "temp"].
Proof.
  split.
  - apply (@sensors_in_schema_order Sample.host humid).
    intros k Hk. cbn in Hk.
    repeat (destruct Hk as [<- | Hk]; [reflexivity|]). destruct Hk.
  - reflexivity.
Defined.

(** C8 at the empty observation: nothing is sent. *)
Lemma only_sensors_with_a_value_are_published_witness :
  publishes (fst (publish_loop "garden" (sensors blank))) = [].
Proof.
  pose proof (@only_sensors_with_a_value_are_published Sample.host "garden" blank)
    as (_ & _ & _ & _ & E & _ & _).
  rewrite E. reflexivity.
Defined.

(** ** Where the code departs from the specification *)

(** C1.  A response whose list of observations holds [null] is a fetch that
    returned an observation, and so is one whose humidity is an object with
    a [toString] property; [publishToMqtt] throws on both, the [catch] of
    line 112 takes the exception, and station A is called again. *)
Lemma fetched_observation_is_fetched_again :
  fetched (reply Null) = Some Null /\
  calls (fst (fst (fetchAndPublish cfg [reply Null; reply humid])))
  = [("A", reply Null); ("A", reply humid)] /\
  fetched (reply odd_humidity) = Some odd_humidity /\
  calls (fst (fst (fetchAndPublish cfg [reply odd_humidity; reply humid])))
  = [("A", reply odd_humidity); ("A", reply humid)].
Proof. repeat split. Qed.


(** C3.  The humidity of [odd_humidity] is an entry with a value, and it
    gets its config message only: [String] throws on line 206. *)
Lemma unconvertible_value_gets_config_only :
  map key (published odd_humidity) = ["winddir"; "humidity"] /\
  map (fun m => fst (fst m)) (publishes (fst (publishToMqtt "garden" odd_humidity)))
  = [ "homeassistant/sensor/garden/winddir/config";
      "homeassistant/sensor/garden/winddir/state";
      "homeassistant/sensor/garden/humidity/config" ] /\
  snd (publishToMqtt "garden" odd_humidity) = Some TypeError.
Proof. repeat split. Qed.


(** C6.  The empty sensor-set name, and a name with [+] when the API key is
    not set, end in exit code 2, not 4. *)
Lemma empty_sensor_name_exits_with_2 :
  snd (fst (main (with_name (Some "") env) [connect] [reply humid])) = Stopped 2 /\
  snd (fst (main (without_api_key (with_name (Some "a+b") env)) [connect] [reply humid]))
    = Stopped 2 /\
  Stopped 2 <> Stopped 4.
Proof. repeat split. discriminate. Qed.

(** C7.  Without [EXEC_EVERY] the default of one minute applies: the handler
    arms the timer, and the process is still running after the cycle. *)
Lemma unset_EXEC_EVERY_arms_the_timer :
  Env.EXEC_EVERY env = None /\
  timers (fst (fst (main env [connect] [reply humid]))) = [inject_Z 60000] /\
  snd (fst (main env [connect] [reply humid])) = Running.
Proof. repeat split. Qed.

(** C8.  For the empty observation the array holds an entry for humidity
    whose value is [undefined]. *)
Lemma blank_observation_has_undefined_entries :
  In {| key := "humidity"; name := "Humidity"; device_class := Some "humidity";
        unit := Some "%"; value := Undefined |} (sensors blank).
Proof. cbn. tauto. Qed.

(** C9.  The empty string does not parse as a duration, yet the handler runs
    a cycle, which calls the stations; and a string that does not parse is
    never reported when the broker goes offline instead of connecting. *)
Lemma empty_EXEC_EVERY_is_not_refused :
  parseDuration "" = None /\
  map fst (calls (fst (fst (main (with_every (Some "") env) [connect] [reply humid]))))
    = ["A"] /\
  snd (fst (main (with_every (Some "") env) [connect] [reply humid])) = Running /\
  parseDuration "abc" = None /\
  snd (fst (main (with_every (Some "abc") env) [offline] [reply humid])) = Stopped 5.
Proof. repeat split. Qed.

(** ** Witnesses of the further properties *)

(** A running process that is told [close]. *)
Lemma broker_trouble_is_fatal_witness :
  snd (fst (main env [connect] [reply humid])) = Running /\
  snd (fst (main env [connect; close; connect] [reply humid])) = Stopped 5.
Proof.
  split; [reflexivity|].
  pose proof (@broker_trouble_is_fatal Sample.host scripted env [connect] close [connect]
                [reply humid]
                (fst (fst (main env [connect] [reply humid])))
                (snd (main env [connect] [reply humid]))
                eq_refl) as E.
  cbn [app] in E. rewrite E; [reflexivity | discriminate].
Defined.

(** The sample configuration: one minute, stations A and B, two turns. *)
Lemma timer_armed_after_first_call_witness :
  EXEC_EVERY cfg <> "" /\
  parseDuration (EXEC_EVERY cfg) = Some (inject_Z 60000) /\
  stationIds cfg = ["A"; "B"] /\
  timers (fst (fst (on_connect cfg [reply humid]))) = [inject_Z 60000].
Proof.
  assert (H1 : EXEC_EVERY cfg <> "") by discriminate.
  assert (H3 : ~ (inject_Z 60000 < 1)%Q) by discriminate.
  assert (H5 : (0 < budget (retries cfg))%nat) by (repeat constructor).
  split; [exact H1|]. split; [reflexivity|]. split; [reflexivity|].
  destruct (@timer_armed_after_first_call Sample.host scripted cfg [reply humid]
              "A" ["B"] (inject_Z 60000) H1 eq_refl H3 eq_refl H5)
    as (result & tail & _ & Ht).
  exact Ht.
Defined.

(** The name [a+b] stops the process with code 4. *)
Lemma exit_code_between_2_and_7_witness :
  snd (fst (main (with_name (Some "a+b") env) [connect] [reply humid])) = Stopped 4 /\
  In 4%Z [2; 3; 4; 5; 6; 7]%Z.
Proof.
  split; [reflexivity|].
  apply (@exit_code_between_2_and_7 Sample.host scripted
           (with_name (Some "a+b") env) [connect] [reply humid] 4 eq_refl).
Defined.

(** The humidity of the observation [humid]. *)
Lemma published_sensor_is_its_row_witness :
  In humidity_55 (published humid) /\
  exists m always, In ("humidity", m, always) table /\ name humidity_55 = meta_name m.
Proof.
  assert (Hin : In humidity_55 (published humid)) by (left; reflexivity).
  split; [exact Hin|].
  destruct (@published_sensor_is_its_row Sample.host humid humidity_55 Hin)
    as (m & always & Hr & Hn & _).
  now exists m, always.
Defined.

Lemma units_and_device_classes_witness :
  In humidity_55 (sensors humid) /\
  (lookup "unit_of_measurement" (props_of (configPayload "garden" humidity_55)) = None
   <-> key humidity_55 = "obsTimeUtc").
Proof.
  assert (Hin : In humidity_55 (sensors humid)) by (cbn; tauto).
  split; [exact Hin|].
  exact (proj1 (@units_and_device_classes Sample.host "garden" humid humidity_55 Hin)).
Defined.

(** The observation [odd_humidity]: the wind direction is published, then
    the config message of the humidity. *)
Lemma publishToMqtt_throws_at_first_unconvertible_witness :
  nullish odd_humidity = false /\
  snd (publishToMqtt "garden" odd_humidity) <> None /\
  exists before s after,
    published odd_humidity = (before ++ s :: after)%list /\
    ToString (value s) = None.
Proof.
  assert (H1 : nullish odd_humidity = false) by reflexivity.
  assert (H2 : snd (publishToMqtt "garden" odd_humidity) <> None) by discriminate.
  split; [exact H1|]. split; [exact H2|].
  destruct (@publishToMqtt_throws_at_first_unconvertible Sample.host "garden" odd_humidity)
    as (_ & _ & _ & Hthrows).
  destruct (Hthrows H1 H2) as (before & s & after & E & _ & Hs & _).
  now exists before, s, after.
Defined.

(** An observation without [metric]. *)
Lemma no_metric_object_no_metric_sensors_witness :
  (forall props, get no_humidity "metric" <> Obj props) /\
  map key (sensors no_humidity) = fixed_keys.
Proof.
  assert (Ho : forall props, get no_humidity "metric" <> Obj props) by discriminate.
  split; [exact Ho|].
  exact (proj2 (@no_metric_object_no_metric_sensors Sample.host no_humidity Ho)).
Defined.
